(** * The webcam face-detection component, as a transition system

    The repository is one React component (src/App.jsx) kept in several
    revisions.  Its own code is glue: three boolean state cells, an error
    cell, two DOM refs, one timer ref, and a handful of callbacks that
    the browser runs one at a time.  This file embeds that glue:

    - [Js]        a state-and-exception monad for one synchronous run of
                  JavaScript (from a callback's entry to its first
                  suspended [await], or to its end);
    - [Gallery]   [getLabeledFaceDescriptions] of the current revision and
                  of the earlier identity-matching revision, as concurrent
                  per-label tasks over a shared array;
    - [App]       the current revision of the component (first document of
                  src/App.jsx): every callback, React's re-render and
                  effect pass, and the event loop as a step function;
    - [Legacy]    the earlier expression-overlay revision (unnamed
                  part_000), callback by callback;
    - [LegacyApp] that revision as a whole: [startVideo] and its
                  timeout, the effects, the re-render and the event loop.

    The face-analysis library, the camera and the network are the
    environment: every event carries what the environment answered. *)

From stdpp Require Import base strings pretty list gmap.

Open Scope string_scope.
Open Scope list_scope.

(** ** One synchronous run of JavaScript *)

Module Js.

(** How a block of statements ends: normally with a value, or with a
    thrown [Error] (we keep its [message]). *)
Inductive Completion (A : Type) : Type :=
| Normal (a : A)
| Thrown (message : string).
Arguments Normal {A} a.
Arguments Thrown {A} message.

Definition Js (W A : Type) : Type := W → Completion A * W.

Definition ret {W A} (a : A) : Js W A := λ w, (Normal a, w).

Definition bind {W A B} (m : Js W A) (f : A → Js W B) : Js W B :=
  λ w, match m w with
       | (Normal a, w') => f a w'
       | (Thrown e, w') => (Thrown e, w')
       end.

Definition throw {W A} (message : string) : Js W A :=
  λ w, (Thrown message, w).

(** [try { body } catch (error) { handler(error.message) }] *)
Definition try_catch {W A} (body : Js W A) (handler : string → Js W A)
  : Js W A :=
  λ w, match body w with
       | (Normal a, w') => (Normal a, w')
       | (Thrown e, w') => handler e w'
       end.

Definition gets {W A} (f : W → A) : Js W A := λ w, (Normal (f w), w).
Definition modify {W} (f : W → W) : Js W unit := λ w, (Normal (), f w).

(** The world a run leaves behind (an uncaught exception of an event
    handler or of an async function is dropped by the browser). *)
Definition exec {W A} (m : Js W A) (w : W) : W := snd (m w).

Definition when {W} (b : bool) (m : Js W unit) : Js W unit :=
  if b then m else ret ().

End Js.

Import Js.

#[global] Instance js_ret {W} : MRet (Js W) := λ A, @Js.ret W A.
#[global] Instance js_bind {W} : MBind (Js W) := λ A B f m, @Js.bind W A B m f.

(** What the code writes to the browser console. *)
Inductive LogEntry : Type :=
| console_error (prefix message : string)
| console_warn (prefix message : string).

(** ** The reference gallery: [getLabeledFaceDescriptions]

    [labels.map(async (label) => ...)] starts one task per label; every
    task loops over image indices, suspends on [fetchImage] and on the
    detection chain, and finally pushes onto one array shared by all
    tasks.  Which task resumes next is decided by the network, so a
    build is run against a schedule: the list of task positions in the
    order in which their pending iteration completes. *)

Module Gallery.

(** A face descriptor is opaque to this code (a Float32Array made by the
    library); a number stands for it. *)
Definition Descriptor : Type := nat.

(** The environment's answer for [/images/${label}/${i}.jpg]. *)
Inductive ImageResult : Type :=
| FetchFailed (message : string)   (* faceapi.fetchImage rejects *)
| DetectFailed (message : string)  (* the detection chain rejects *)
| NoFace                           (* the chain resolves to undefined *)
| Face (descriptor : Descriptor).

Definition Images : Type := string → nat → ImageResult.

(** [new faceapi.LabeledFaceDescriptors(label, descriptors)] *)
Record LabeledFaceDescriptors : Type := {
  lfd_label : string;
  lfd_descriptors : list Descriptor;
}.

Inductive TaskStatus : Type :=
| Running
| Fulfilled
| Rejected (message : string).

(** The local variables of one label's async callback. *)
Record Task : Type := {
  label : string;
  i : nat;                          (* loop counter *)
  descriptors : list Descriptor;    (* const descriptors = [] *)
  requested : list nat;             (* indices handed to fetchImage so far *)
  status : TaskStatus;
}.

Record Build : Type := {
  tasks : list Task;
  labeledFaceDescriptors : list LabeledFaceDescriptors; (* shared array *)
  rejection : option string;        (* first rejection seen by Promise.all *)
  console : list LogEntry;
}.

(** The two revisions of the function that hold a gallery. *)
Inductive Revision : Type :=
| Current   (* src/App.jsx, first document, lines 153-195 *)
| Earlier.  (* src/App.jsx, second document, lines 421-450 *)

Definition TypeError_descriptor : string :=
  "Cannot read properties of undefined (reading 'descriptor')".

Definition warn_prefix (l : string) (n : nat) : string :=
  "Failed to process image " +:+ pretty n +:+ " for label " +:+ l +:+ ":".

Section Builder.
Variable labels : list string.   (* import { labels } from "./data/labels" *)
Variable images : Images.

(** The callback of [labels.map] runs up to its first [await]: the
    loop is entered ([labels] holds at least this label) and
    [fetchImage] is called for index 0. *)
Definition new_task (l : string) : Task :=
  {| label := l; i := 0; descriptors := []; requested := [0]; status := Running |}.

Definition start : Build :=
  {| tasks := new_task <$> labels;
     labeledFaceDescriptors := [];
     rejection := None;
     console := [] |}.

(** What the end of the loop does with the task's descriptors:
    [if (descriptors.length > 0) labeledFaceDescriptors.push(...)]. *)
Definition to_push (l : string) (ds : list Descriptor)
  : list LabeledFaceDescriptors :=
  if bool_decide (0 < length ds)
  then [ {| lfd_label := l; lfd_descriptors := ds |} ]
  else [].

(** The body of [for (let i = 0; i < labels.length; i++)] for the
    current value of [i], in the current revision: the fetch and the
    detection sit inside [try], a caught failure is warned about, an
    undefined detection is passed over by [if (detection)]. *)
Definition body_Current (t : Task) : list Descriptor * list LogEntry :=
  match images (label t) (i t) with
  | FetchFailed m | DetectFailed m =>
      (descriptors t, [console_warn (warn_prefix (label t) (i t)) m])
  | NoFace => (descriptors t, [])
  | Face d => (descriptors t ++ [d], [])
  end.

(** The same body in the earlier revision: no [try], and
    [detections.descriptor] is read without a test. *)
Definition body_Earlier (t : Task) : Completion (list Descriptor) :=
  match images (label t) (i t) with
  | FetchFailed m | DetectFailed m => Thrown m
  | NoFace => Thrown TypeError_descriptor
  | Face d => Normal (descriptors t ++ [d])
  end.

(** One resumption of a running task, which waits inside the iteration
    for [i] with its image already asked for: the rest of that
    iteration, then [i++]; when the loop goes on, [fetchImage] is
    called for the next index and the task waits again; when the loop
    condition fails the task pushes its result and is fulfilled in the
    same run.  Returns the task and what it appended to the shared
    array and to the console. *)
Definition iteration (rev : Revision) (t : Task)
  : Task * list LabeledFaceDescriptors * list LogEntry :=
  let finish ds :=
    if bool_decide (S (i t) < length labels)
    then ({| label := label t; i := S (i t); descriptors := ds;
             requested := requested t ++ [S (i t)]; status := Running |}, [])
    else ({| label := label t; i := S (i t); descriptors := ds;
             requested := requested t; status := Fulfilled |},
          to_push (label t) ds) in
  match rev with
  | Current =>
      let '(ds, warnings) := body_Current t in
      (finish ds, warnings)
  | Earlier =>
      match body_Earlier t with
      | Normal ds => (finish ds, [])
      | Thrown m =>
          ({| label := label t; i := i t; descriptors := descriptors t;
              requested := requested t; status := Rejected m |}, [], [])
      end
  end.

(** The task at position [p] resumes (nothing happens when it has
    already settled or does not exist). *)
Definition resume (rev : Revision) (p : nat) (b : Build) : Build :=
  match tasks b !! p with
  | Some t =>
      match status t with
      | Running =>
          let '(t', pushed, logged) := iteration rev t in
          {| tasks := <[p := t']> (tasks b);
             labeledFaceDescriptors := labeledFaceDescriptors b ++ pushed;
             rejection :=
               match rejection b, status t' with
               | None, Rejected m => Some m
               | r, _ => r
               end;
             console := console b ++ logged |}
      | _ => b
      end
  | None => b
  end.

Definition run (rev : Revision) (schedule : list nat) : Build :=
  foldl (λ b p, resume rev p b) start schedule.

Definition fulfilled (t : Task) : bool :=
  match status t with Fulfilled => true | _ => false end.

(** [await Promise.all(...)] followed by [return labeledFaceDescriptors]:
    [None] while the promise is pending. *)
Definition settled (b : Build)
  : option (Completion (list LabeledFaceDescriptors)) :=
  match rejection b with
  | Some m => Some (Thrown m)
  | None =>
      if forallb fulfilled (tasks b)
      then Some (Normal (labeledFaceDescriptors b))
      else None
  end.

(** [getLabeledFaceDescriptions()] against a schedule. *)
Definition getLabeledFaceDescriptions (rev : Revision) (schedule : list nat)
  : option (Completion (list LabeledFaceDescriptors)) :=
  settled (run rev schedule).

(** Every task in turn, each run to its end. *)
Definition one_by_one : list nat :=
  p ← seq 0 (length labels); replicate (length labels) p.

End Builder.

End Gallery.

(** ** The current revision of the component (src/App.jsx, lines 1-332) *)

Module App.

Definition DETECTION_INTERVAL : nat := 1000.
Definition MODELS_PATH : string := "/models".

(** The values of the [useState] cells.  Every callback created by a
    render sees the values of that render, whatever is set later. *)
Record Snapshot : Type := {
  isVideoOn : bool;
  isVideoInitialized : bool;
  areModelsLoaded : bool;
  error : option string;       (* null, or the message *)
  isLoading : bool;
}.

#[global] Instance Snapshot_eq_dec : EqDecision Snapshot.
Proof. solve_decision. Defined.

Definition initial : Snapshot :=
  {| isVideoOn := false; isVideoInitialized := false;
     areModelsLoaded := false; error := None; isLoading := true |}.

(** [if (error)]: null and the empty string are falsy. *)
Definition truthy (e : option string) : bool :=
  match e with
  | Some m => negb (String.eqb m "")
  | None => false
  end.

(** What the JSX of a render puts on screen. *)
Definition shows_retry (r : Snapshot) : bool := truthy (error r).
Definition shows_toggle (r : Snapshot) : bool := negb (truthy (error r)).
Definition shows_video (r : Snapshot) : bool :=
  negb (truthy (error r)) && areModelsLoaded r && isVideoOn r.

Inductive TrackState : Type := live | ended.

(** A MediaStream, as the list of its tracks ([getTracks()]). *)
Definition MediaStream : Type := list TrackState.

Definition is_live (t : TrackState) : bool :=
  match t with live => true | ended => false end.

(** Who is waiting for [initializeVideo()]. *)
Inductive InitCaller : Type :=
| ByToggle (r : Snapshot)   (* toggleVideo of render r: await initializeVideo() *)
| ByEffect (cell : nat).    (* the effect: initializeVideo().catch(...), with
                               the address of its [mounted] variable *)

(** Who is waiting for [startFaceDetection()]. *)
Inductive StartCaller : Type := FromLoadModels | FromToggle.

(** A suspended [await]. *)
Inductive Task : Type :=
| AwaitGetUserMedia (c : InitCaller)
| AwaitModels (r : Snapshot)        (* loadModels of render r, at Promise.all *)
| AwaitGallery (c : StartCaller).   (* startFaceDetection, at the gallery *)

(** The <video> element, as far as the code touches it. *)
Record VideoElement : Type := {
  srcObject : option nat;                 (* index into [streams] *)
  onloadedmetadata : option InitCaller;   (* the handler and whom it resolves *)
  loading : bool;                         (* loadedmetadata still to come *)
}.

Definition fresh_video : VideoElement :=
  {| srcObject := None; onloadedmetadata := None; loading := false |}.

Record World : Type := {
  st : Snapshot;                    (* the state cells, as last set *)
  alive : bool;                     (* the component is mounted *)
  video : option VideoElement;      (* videoRef.current (and canvasRef.current:
                                       both elements sit in one fragment) *)
  detectionIntervalRef : option nat;
  timers : gset nat;                (* interval timers that still fire *)
  timersCreated : nat;              (* setInterval hands out 0, 1, 2, ... *)
  streams : list MediaStream;       (* every stream getUserMedia handed out *)
  mounted : list bool;              (* the [mounted] variable of each effect run *)
  effectCell : nat;                 (* the one the pending cleanup closes over *)
  pending : list (option Task);     (* suspended awaits; None once resumed *)
  console : list LogEntry;
}.

Definition with_st (f : Snapshot → Snapshot) (w : World) : World :=
  {| st := f (st w); alive := alive w; video := video w;
     detectionIntervalRef := detectionIntervalRef w; timers := timers w;
     timersCreated := timersCreated w; streams := streams w;
     mounted := mounted w; effectCell := effectCell w;
     pending := pending w; console := console w |}.

Definition with_alive (b : bool) (w : World) : World :=
  {| st := st w; alive := b; video := video w;
     detectionIntervalRef := detectionIntervalRef w; timers := timers w;
     timersCreated := timersCreated w; streams := streams w;
     mounted := mounted w; effectCell := effectCell w;
     pending := pending w; console := console w |}.

Definition with_video (v : option VideoElement) (w : World) : World :=
  {| st := st w; alive := alive w; video := v;
     detectionIntervalRef := detectionIntervalRef w; timers := timers w;
     timersCreated := timersCreated w; streams := streams w;
     mounted := mounted w; effectCell := effectCell w;
     pending := pending w; console := console w |}.

Definition with_ref (r : option nat) (w : World) : World :=
  {| st := st w; alive := alive w; video := video w;
     detectionIntervalRef := r; timers := timers w;
     timersCreated := timersCreated w; streams := streams w;
     mounted := mounted w; effectCell := effectCell w;
     pending := pending w; console := console w |}.

Definition with_timers (t : gset nat) (n : nat) (w : World) : World :=
  {| st := st w; alive := alive w; video := video w;
     detectionIntervalRef := detectionIntervalRef w; timers := t;
     timersCreated := n; streams := streams w;
     mounted := mounted w; effectCell := effectCell w;
     pending := pending w; console := console w |}.

Definition with_streams (s : list MediaStream) (w : World) : World :=
  {| st := st w; alive := alive w; video := video w;
     detectionIntervalRef := detectionIntervalRef w; timers := timers w;
     timersCreated := timersCreated w; streams := s;
     mounted := mounted w; effectCell := effectCell w;
     pending := pending w; console := console w |}.

Definition with_mounted (m : list bool) (c : nat) (w : World) : World :=
  {| st := st w; alive := alive w; video := video w;
     detectionIntervalRef := detectionIntervalRef w; timers := timers w;
     timersCreated := timersCreated w; streams := streams w;
     mounted := m; effectCell := c;
     pending := pending w; console := console w |}.

Definition with_pending (p : list (option Task)) (w : World) : World :=
  {| st := st w; alive := alive w; video := video w;
     detectionIntervalRef := detectionIntervalRef w; timers := timers w;
     timersCreated := timersCreated w; streams := streams w;
     mounted := mounted w; effectCell := effectCell w;
     pending := p; console := console w |}.

Definition with_console (c : list LogEntry) (w : World) : World :=
  {| st := st w; alive := alive w; video := video w;
     detectionIntervalRef := detectionIntervalRef w; timers := timers w;
     timersCreated := timersCreated w; streams := streams w;
     mounted := mounted w; effectCell := effectCell w;
     pending := pending w; console := c |}.

Abbreviation Run := (Js World).

Definition skip : Run unit := mret ().

(** *** The state setters *)

Definition setIsVideoOn (b : bool) : Run unit :=
  modify (with_st (λ r,
    {| isVideoOn := b; isVideoInitialized := isVideoInitialized r;
       areModelsLoaded := areModelsLoaded r; error := error r;
       isLoading := isLoading r |})).

Definition setIsVideoInitialized (b : bool) : Run unit :=
  modify (with_st (λ r,
    {| isVideoOn := isVideoOn r; isVideoInitialized := b;
       areModelsLoaded := areModelsLoaded r; error := error r;
       isLoading := isLoading r |})).

Definition setAreModelsLoaded (b : bool) : Run unit :=
  modify (with_st (λ r,
    {| isVideoOn := isVideoOn r; isVideoInitialized := isVideoInitialized r;
       areModelsLoaded := b; error := error r;
       isLoading := isLoading r |})).

Definition setError (e : option string) : Run unit :=
  modify (with_st (λ r,
    {| isVideoOn := isVideoOn r; isVideoInitialized := isVideoInitialized r;
       areModelsLoaded := areModelsLoaded r; error := e;
       isLoading := isLoading r |})).

Definition setIsLoading (b : bool) : Run unit :=
  modify (with_st (λ r,
    {| isVideoOn := isVideoOn r; isVideoInitialized := isVideoInitialized r;
       areModelsLoaded := areModelsLoaded r; error := error r;
       isLoading := b |})).

(** *** The browser *)

Definition log (entry : LogEntry) : Run unit :=
  modify (λ w, with_console (console w ++ [entry]) w).

Definition setInterval : Run nat :=
  id ← gets timersCreated;
  modify (λ w, with_timers ({[id]} ∪ timers w) (S id) w) ;;
  mret id.

Definition clearInterval (handle : option nat) : Run unit :=
  match handle with
  | Some id => modify (λ w, with_timers (timers w ∖ {[id]}) (timersCreated w) w)
  | None => mret ()
  end.

(** [stream.getTracks().forEach((track) => track.stop())] *)
Definition stop_tracks (s : nat) : Run unit :=
  modify (λ w, with_streams (alter (fmap (λ _, ended)) s (streams w)) w).

(** A suspended await gets the next free slot. *)
Definition suspend (t : Task) : Run unit :=
  modify (λ w, with_pending (pending w ++ [Some t]) w).

(** *** The callbacks, in the order of the source *)

(** lines 143-151 *)
Definition stopVideo : Run unit :=
  v ← gets video;
  match v with
  | Some el =>
      match srcObject el with
      | Some s =>
          stop_tracks s ;;
          modify (with_video (Some
            {| srcObject := None; onloadedmetadata := onloadedmetadata el;
               loading := false |}))
      | None => mret ()
      end
  | None => mret ()
  end ;;
  setIsVideoInitialized false ;;
  handle ← gets detectionIntervalRef;
  clearInterval handle.

(** lines 117-141, up to [await navigator.mediaDevices.getUserMedia] *)
Definition initializeVideo (c : InitCaller) : Run unit :=
  suspend (AwaitGetUserMedia c).

Inductive CameraResult : Type :=
| Granted                      (* resolves with a stream of one video track *)
| Denied (message : string).   (* rejects *)

(** lines 125-140, from the answer of getUserMedia on.  Returns whether
    the promise handed to the caller is still pending (it then resolves
    from the loadedmetadata handler). *)
Definition initializeVideo_resume (c : InitCaller) (res : CameraResult)
  : Run bool :=
  try_catch
    (match res with
     | Denied m => throw m
     | Granted =>
         s ← gets (λ w, length (streams w));
         modify (λ w, with_streams (streams w ++ [[live]]) w) ;;
         v ← gets video;
         match v with
         | None => mret false
         | Some el =>
             modify (with_video (Some
               {| srcObject := Some s; onloadedmetadata := Some c;
                  loading := true |})) ;;
             mret true
         end
     end)
    (λ m, setError (Some ("Camera access denied: " +:+ m)) ;; throw m).

(** lines 44-55, up to [await getLabeledFaceDescriptions()].  Returns
    whether it suspended there. *)
Definition startFaceDetection (r : Snapshot) (c : StartCaller) : Run bool :=
  v ← gets video;
  if negb (isVideoInitialized r) || negb (bool_decide (is_Some v))
  then mret false
  else suspend (AwaitGallery c) ;; mret true.

(** lines 190-194 and 50-90: the gallery promise has settled. *)
Definition startFaceDetection_resume
    (res : Completion (list Gallery.LabeledFaceDescriptors)) : Run unit :=
  try_catch
    (labeledFaceDescriptors ←
       match res with
       | Normal g => mret g
       | Thrown m =>
           setError (Some ("Failed to process face descriptions: " +:+ m)) ;;
           throw m
       end;
     if bool_decide (length labeledFaceDescriptors = 0)
     then throw "No face descriptors found"
     else
       id ← setInterval;
       modify (with_ref (Some id)))
    (λ m,
       setError (Some ("Face detection failed: " +:+ m)) ;;
       log (console_error "Face detection error:" m)).

(** lines 56-86, the interval callback. *)
Inductive FrameResult : Type :=
| Drawn                          (* detection and drawing went through *)
| FrameFailed (message : string).

Definition onInterval (frame : FrameResult) : Run unit :=
  v ← gets video;
  if negb (bool_decide (is_Some v))
  then mret ()
  else
    try_catch
      (match frame with
       | Drawn => mret ()
       | FrameFailed m => throw m
       end)
      (λ m, log (console_error "Frame processing error:" m)).

(** lines 93-111, up to [await Promise.all] *)
Definition loadModels (r : Snapshot) : Run unit :=
  setIsLoading true ;;
  suspend (AwaitModels r).

(** [Promise.all] of the three [loadFromUri]: each [None] (loaded) or
    the message of its rejection; the promise rejects with a rejection
    of one of them (here the first in the array). *)
Definition Promise_all (results : list (option string)) : option string :=
  list_find is_Some results ≫= snd.

(** lines 101-110.  The [finally] runs when [startFaceDetection] has
    come back, so it is postponed when that one suspends. *)
Definition loadModels_resume (r : Snapshot) (results : list (option string))
  : Run unit :=
  suspended ←
    try_catch
      (match Promise_all results with
       | Some m => throw m
       | None => mret ()
       end ;;
       setAreModelsLoaded true ;;
       if isVideoOn r then startFaceDetection r FromLoadModels else mret false)
      (λ m,
         setError (Some ("Failed to load models: " +:+ m)) ;;
         log (console_error "Error loading models:" m) ;;
         mret false);
  if (suspended : bool) then skip else setIsLoading false.

(** lines 197-212, up to [await initializeVideo()] *)
Definition toggleVideo_catch (m : string) : Run unit :=
  setError (Some ("Failed to toggle video: " +:+ m)) ;;
  setIsVideoOn false.

Definition toggleVideo (r : Snapshot) : Run unit :=
  try_catch
    (if isVideoOn r
     then stopVideo ;; setIsVideoOn false
     else setIsVideoOn true ;; initializeVideo (ByToggle r))
    toggleVideo_catch.

(** lines 205-207, after [await initializeVideo()] *)
Definition toggleVideo_rest (r : Snapshot) : Run unit :=
  if areModelsLoaded r
  then startFaceDetection r FromToggle ;; mret ()
  else mret ().

(** lines 21-42: the effect on [isVideoOn] and its cleanup. *)
Definition effect_video (r : Snapshot) : Run unit :=
  cell ← gets (λ w, length (mounted w));
  modify (λ w, with_mounted (mounted w ++ [true]) cell w) ;;
  if isVideoOn r then initializeVideo (ByEffect cell) else stopVideo.

Definition effect_video_catch (cell : nat) (m : string) : Run unit :=
  still ← gets (λ w, mounted w !! cell);
  if bool_decide (still = Some true)
  then setError (Some m) ;; setIsVideoOn false
  else mret ().

Definition cleanup (cell : nat) : Run unit :=
  modify (λ w, with_mounted (<[cell := false]> (mounted w)) (effectCell w) w) ;;
  handle ← gets detectionIntervalRef;
  clearInterval handle ;;
  stopVideo.

(** lines 226-229: the Retry button *)
Definition onRetry (r : Snapshot) : Run unit :=
  setError None ;;
  loadModels r.

(** *** React: rendering and the effect pass

    A render takes the state cells as they are.  The commit mounts or
    unmounts the <video> and <canvas> pair (a removed element is gone;
    mounting again makes a new one, and the refs are null in between).
    Then the effects whose dependencies differ from the previous
    render run: first the cleanup of the [isVideoOn] effect, then the
    effect bodies in source order.  [loadModels] is rebuilt when
    [isVideoOn] or [startFaceDetection] changes, and the latter when
    [isVideoInitialized] changes, so the second effect depends on
    both cells. *)

Definition commit (r : Snapshot) : Run unit :=
  modify (λ w,
    with_video
      (if shows_video r then Some (default fresh_video (video w)) else None)
      w).

Definition video_deps_changed (old r : Snapshot) : bool :=
  negb (bool_decide (isVideoOn r = isVideoOn old)).

Definition models_deps_changed (old r : Snapshot) : bool :=
  negb (bool_decide (isVideoOn r = isVideoOn old))
  || negb (bool_decide (isVideoInitialized r = isVideoInitialized old)).

Definition rerender (old : Snapshot) (w : World) : World :=
  let r := st w in
  if alive w && negb (bool_decide (r = old))
  then
    exec
      (commit r ;;
       when (video_deps_changed old r)
         (cell ← gets effectCell; cleanup cell ;; effect_video r) ;;
       when (models_deps_changed old r) (loadModels r))
      w
  else w.

(** Effects set state themselves, so React renders again until nothing
    changes; a second pass always suffices (lemma [settle_quiescent]). *)
Definition settle (old : Snapshot) (w : World) : World :=
  rerender (st w) (rerender old w).

Definition unmounted : World :=
  {| st := initial; alive := true; video := None;
     detectionIntervalRef := None; timers := ∅; timersCreated := 0;
     streams := []; mounted := []; effectCell := 0; pending := [];
     console := [] |}.

(** The first render and its effects. *)
Definition mount : World :=
  exec (commit initial ;; effect_video initial ;; loadModels initial)
    unmounted.

(** *** The event loop *)

Inductive Event : Type :=
| ClickToggle
| ClickRetry
| GetUserMediaSettles (k : nat) (res : CameraResult)
| LoadedMetadata
| ModelsSettle (k : nat) (ssdMobilenetv1 faceRecognitionNet
                           faceLandmark68Net : option string)
| GallerySettles (k : nat) (images : Gallery.Images) (schedule : list nat)
| Tick (timer : nat) (frame : FrameResult)
| Unmount.

Definition resumed (k : nat) : Run unit :=
  modify (λ w, with_pending (<[k := None]> (pending w)) w).

(** getUserMedia has answered the call suspended in slot [k]. *)
Definition after_getUserMedia (c : InitCaller) (res : CameraResult)
  : Run unit :=
  match c with
  | ByToggle r =>
      try_catch
        (waiting ← initializeVideo_resume c res;
         if (waiting : bool) then skip else toggleVideo_rest r)
        toggleVideo_catch
  | ByEffect cell =>
      try_catch
        (initializeVideo_resume c res ;; skip)
        (effect_video_catch cell)
  end.

(** lines 132-135: the loadedmetadata handler, then whoever awaited. *)
Definition onloadedmetadata_fires (c : InitCaller) : Run unit :=
  setIsVideoInitialized true ;;
  match c with
  | ByToggle r => try_catch (toggleVideo_rest r) toggleVideo_catch
  | ByEffect _ => skip
  end.

Definition after_gallery (c : StartCaller)
    (res : Completion (list Gallery.LabeledFaceDescriptors)) : Run unit :=
  startFaceDetection_resume res ;;
  match c with
  | FromLoadModels => setIsLoading false
  | FromToggle => skip
  end.

Section Loop.
Variable labels : list string.   (* import { labels } from "./data/labels" *)

(** One task of the event loop, for the closures of render [r] where
    the event is a click.  An event that cannot happen in the
    current world does nothing. *)
Definition handle (r : Snapshot) (e : Event) : Run unit :=
  match e with
  | ClickToggle =>
      up ← gets alive;
      when (up && shows_toggle r) (toggleVideo r)
  | ClickRetry =>
      up ← gets alive;
      when (up && shows_retry r) (onRetry r)
  | GetUserMediaSettles k res =>
      t ← gets (λ w, pending w !! k);
      match t with
      | Some (Some (AwaitGetUserMedia c)) =>
          resumed k ;; after_getUserMedia c res
      | _ => skip
      end
  | LoadedMetadata =>
      v ← gets video;
      match v with
      | Some el =>
          match srcObject el, onloadedmetadata el, loading el with
          | Some s, Some c, true =>
              modify (with_video (Some
                {| srcObject := Some s; onloadedmetadata := Some c;
                   loading := false |})) ;;
              onloadedmetadata_fires c
          | _, _, _ => skip
          end
      | None => skip
      end
  | ModelsSettle k a b c =>
      t ← gets (λ w, pending w !! k);
      match t with
      | Some (Some (AwaitModels r')) =>
          resumed k ;; loadModels_resume r' [a; b; c]
      | _ => skip
      end
  | GallerySettles k images schedule =>
      t ← gets (λ w, pending w !! k);
      match t with
      | Some (Some (AwaitGallery c)) =>
          let build := Gallery.run labels images Gallery.Current schedule in
          match Gallery.settled build with
          | Some res =>
              resumed k ;;
              modify (λ w, with_console (console w ++ Gallery.console build) w) ;;
              after_gallery c res
          | None => skip
          end
      | _ => skip
      end
  | Tick timer frame =>
      active ← gets timers;
      when (bool_decide (timer ∈ active)) (onInterval frame)
  | Unmount =>
      up ← gets alive;
      when up
        (modify (with_alive false) ;;
         modify (with_video None) ;;
         cell ← gets effectCell;
         cleanup cell)
  end.

Definition step (w : World) (e : Event) : World :=
  settle (st w) (exec (handle (st w) e) w).

Definition run (trace : list Event) : World := foldl step mount trace.

End Loop.

(** *** What is observed *)

Definition stream_live (s : MediaStream) : bool := existsb is_live s.

(** The streams that still have a live track: the camera is in use as
    long as there is one. *)
Definition live_streams (w : World) : list MediaStream :=
  filter (λ s, stream_live s = true) (streams w).

(** The stream the video surface shows, if any. *)
Definition attached (w : World) : option nat :=
  video w ≫= srcObject.

End App.

(** ** The earlier expression-overlay revision (unnamed part_000)

    Three state cells and no error cell: failures only reach the
    console.  The callbacks the claims speak about are embedded one by
    one; each closes over the render [r] that created it. *)

Module Legacy.

Record Snapshot : Type := {
  isVideoOn : bool;
  isVideoInitialized : bool;
  areModelsLoaded : bool;
}.

Record VideoElement : Type := {
  srcObject : option nat;
  paused : bool;
  onloadedmetadata : option Snapshot;   (* the render whose handler is set *)
}.

Record World : Type := {
  st : Snapshot;
  video : option VideoElement;          (* videoRef.current *)
  detectionIntervalRef : option nat;
  timers : gset nat;
  timersCreated : nat;
  streams : list App.MediaStream;
  console : list LogEntry;
}.

Abbreviation Run := (Js World).

Definition skip : Run unit := mret ().

Definition setIsVideoOn (b : bool) : Run unit :=
  modify (λ w,
    {| st := {| isVideoOn := b;
                isVideoInitialized := isVideoInitialized (st w);
                areModelsLoaded := areModelsLoaded (st w) |};
       video := video w; detectionIntervalRef := detectionIntervalRef w;
       timers := timers w; timersCreated := timersCreated w;
       streams := streams w; console := console w |}).

Definition set_video (v : option VideoElement) : Run unit :=
  modify (λ w,
    {| st := st w; video := v;
       detectionIntervalRef := detectionIntervalRef w;
       timers := timers w; timersCreated := timersCreated w;
       streams := streams w; console := console w |}).

Definition log (entry : LogEntry) : Run unit :=
  modify (λ w,
    {| st := st w; video := video w;
       detectionIntervalRef := detectionIntervalRef w;
       timers := timers w; timersCreated := timersCreated w;
       streams := streams w; console := console w ++ [entry] |}).

Definition clearInterval (handle : option nat) : Run unit :=
  match handle with
  | Some id =>
      modify (λ w,
        {| st := st w; video := video w;
           detectionIntervalRef := detectionIntervalRef w;
           timers := timers w ∖ {[id]}; timersCreated := timersCreated w;
           streams := streams w; console := console w |})
  | None => skip
  end.

(** lines 69-74 *)
Definition stopVideo : Run unit :=
  v ← gets video;
  match v with
  | Some el =>
      set_video (Some {| srcObject := None; paused := true;
                         onloadedmetadata := onloadedmetadata el |})
  | None => skip
  end.

(** lines 21-24: the cleanup of the effect on
    [isVideoOn, isVideoInitialized] *)
Definition cleanup : Run unit :=
  handle ← gets detectionIntervalRef;
  clearInterval handle ;;
  stopVideo.

(** What [videoRef.current] holds while there is no <video> element:
    [useRef()] starts with undefined, and React stores null when it
    takes an element away. *)
Inductive EmptyRef : Type := ref_undefined | ref_null.

Definition show_empty (e : EmptyRef) : string :=
  match e with ref_undefined => "undefined" | ref_null => "null" end.

Definition TypeError_srcObject (e : EmptyRef) : string :=
  "Cannot set properties of " +:+ show_empty e +:+ " (setting 'srcObject')".

(** lines 40-55, from the answer of getUserMedia on; [empty] is what
    the ref holds if there is no element *)
Definition initializeVideo_resume (r : Snapshot) (empty : EmptyRef)
    (res : App.CameraResult) : Run unit :=
  try_catch
    (match res with
     | App.Denied m => throw m
     | App.Granted =>
         s ← gets (λ w, length (streams w));
         modify (λ w,
           {| st := st w; video := video w;
              detectionIntervalRef := detectionIntervalRef w;
              timers := timers w; timersCreated := timersCreated w;
              streams := streams w ++ [[App.live]]; console := console w |}) ;;
         v ← gets video;
         match v with
         | None => throw (TypeError_srcObject empty)
         | Some el =>
             set_video (Some {| srcObject := Some s; paused := paused el;
                                onloadedmetadata := Some r |})
         end
     end)
    (λ m,
       log (console_error "Error initializing video:" m) ;;
       setIsVideoOn false).

(** lines 94-95 and 126: [detectionIntervalRef.current = setInterval(...)] *)
Definition startFaceDetection : Run unit :=
  id ← gets timersCreated;
  modify (λ w,
    {| st := st w; video := video w;
       detectionIntervalRef := Some id;
       timers := {[id]} ∪ timers w; timersCreated := S id;
       streams := streams w; console := console w |}).

(** lines 95-126: the interval callback of the timer started by the
    closures of render [r] *)
Definition onInterval (r : Snapshot) (frame : App.FrameResult) : Run unit :=
  try_catch
    (if negb (isVideoInitialized r)
     then skip
     else
       match frame with
       | App.Drawn => skip
       | App.FrameFailed m => throw m
       end)
    (λ m, log (console_error "Error detecting faces:" m)).

End Legacy.

(** ** Vocabulary of the statements *)

Module GallerySpec.
Import Gallery.

Section Vocabulary.
Variable labels : list string.
Variable images : Images.

Definition is_face (r : ImageResult) : bool :=
  match r with Face _ => true | _ => false end.

(** The descriptors the images [0 .. n-1] of label [l] yield. *)
Definition faces (l : string) (n : nat) : list Descriptor :=
  k ← seq 0 n;
  match images l k with Face d => [d] | _ => [] end.

(** The warning an image earns in the current revision. *)
Definition image_warning (l : string) (k : nat) : list LogEntry :=
  match images l k with
  | FetchFailed m | DetectFailed m => [console_warn (warn_prefix l k) m]
  | NoFace | Face _ => []
  end.

(** What a task has put into the shared array so far. *)
Definition contribution (t : Task) : list LabeledFaceDescriptors :=
  if fulfilled t then to_push (label t) (descriptors t) else [].

Definition warnings_so_far (t : Task) : list LogEntry :=
  k ← seq 0 (i t); image_warning (label t) k.

(** The gallery a build of the current revision ends with, in label
    order: one entry per label that has a face in some image. *)
Definition expected_gallery : list LabeledFaceDescriptors :=
  l ← labels; to_push l (faces l (length labels)).

Definition expected_warnings : list LogEntry :=
  l ← labels; k ← seq 0 (length labels); image_warning l k.

(** How many images a task has asked for: a task that waits or was
    rejected is inside the iteration for [i]. *)
Definition asked (t : Task) : nat :=
  match status t with
  | Fulfilled => i t
  | Running | Rejected _ => S (i t)
  end.

(** A task of the current revision between two resumptions. *)
Definition task_ok_Current (l : string) (t : Task) : Prop :=
  label t = l ∧
  requested t = seq 0 (asked t) ∧
  descriptors t = faces l (i t) ∧
  match status t with
  | Running => i t < length labels
  | Fulfilled => i t = length labels
  | Rejected _ => False
  end.

Definition inv_Current (b : Build) : Prop :=
  Forall2 task_ok_Current labels (tasks b) ∧
  labeledFaceDescriptors b ≡ₚ (tasks b ≫= contribution) ∧
  console b ≡ₚ (tasks b ≫= warnings_so_far) ∧
  rejection b = None.

(** A task of the earlier revision between two resumptions. *)
Definition task_ok_Earlier (l : string) (t : Task) : Prop :=
  label t = l ∧
  (∀ k, k < i t → is_face (images l k) = true) ∧
  match status t with
  | Running => i t < length labels ∧ requested t = seq 0 (S (i t))
  | Fulfilled => i t = length labels ∧ requested t = seq 0 (i t)
  | Rejected _ =>
      i t < length labels ∧ requested t = seq 0 (S (i t)) ∧
      is_face (images l (i t)) = false
  end.

Definition inv_Earlier (b : Build) : Prop :=
  Forall2 task_ok_Earlier labels (tasks b) ∧
  (rejection b = None → Forall (λ t, ∀ m, status t ≠ Rejected m) (tasks b)).

(** A running task still has an image to ask for. *)
Definition in_bounds (b : Build) : Prop :=
  Forall (λ t, status t = Running → i t < length labels) (tasks b).

Definition is_running (t : Task) : bool :=
  match status t with Running => true | _ => false end.

End Vocabulary.

(** Two labels; "ann" has a face in image 0 and a missing image 1,
    "bob" has no face in either image. *)
Definition two_labels : list string := ["ann"; "bob"].

Definition two_images : Images :=
  λ l k,
    if bool_decide (l = "ann")
    then match k with 0 => Face 7 | _ => FetchFailed "404" end
    else NoFace.

End GallerySpec.

Module AppSpec.
Import App.

(** Events that leave the camera requested: everything but a click
    that switches it off, a rejected getUserMedia and the teardown. *)
Definition keeps_on (w : World) (e : Event) : bool :=
  match e with
  | ClickToggle => negb (isVideoOn (st w))
  | GetUserMediaSettles _ (Denied _) => false
  | Unmount => false
  | _ => true
  end.

(** A run in which the camera, once requested, stays requested: events
    that would switch it off do not occur. *)
Definition run_on (labels : list string) (trace : list Event) : World :=
  foldl (λ w e, if keeps_on w e then step labels w e else w) mount trace.

(** A flag seen by a suspended closure is still up if it was up in
    the closure's render: the models flag always, the camera flag as
    long as the camera stays requested ([camera = true]). *)
Definition captured_ok (camera : bool) (now r : Snapshot) : Prop :=
  (areModelsLoaded r = true → areModelsLoaded now = true) ∧
  (camera = true → isVideoInitialized r = true → isVideoInitialized now = true).

Definition caller_ok (camera : bool) (now : Snapshot) (c : option InitCaller)
  : Prop :=
  match c with
  | Some (ByToggle r) => captured_ok camera now r
  | _ => True
  end.

Definition task_ok (camera : bool) (now : Snapshot) (t : option Task) : Prop :=
  match t with
  | Some (AwaitGallery _) =>
      areModelsLoaded now = true ∧
      (camera = true → isVideoInitialized now = true)
  | Some (AwaitModels r) => captured_ok camera now r
  | Some (AwaitGetUserMedia c) => caller_ok camera now (Some c)
  | None => True
  end.

Definition camera_ok (w : World) : Prop :=
  alive w = true ∧
  (isVideoOn (st w) = false → isVideoInitialized (st w) = false) ∧
  (is_Some (video w) → isVideoOn (st w) = true).

(** The invariant of the event loop. *)
Definition inv (camera : bool) (w : World) : Prop :=
  Forall (task_ok camera (st w)) (pending w) ∧
  caller_ok camera (st w) (video w ≫= onloadedmetadata) ∧
  (camera = true → camera_ok w).

Definition grows (camera : bool) (s s' : Snapshot) : Prop :=
  (areModelsLoaded s = true → areModelsLoaded s' = true) ∧
  (camera = true → isVideoInitialized s = true → isVideoInitialized s' = true).

(** What a render may assume about the render before it. *)
Definition follows (camera : bool) (old now : Snapshot) : Prop :=
  camera = true →
  (isVideoOn old = true → isVideoOn now = true) ∧
  (isVideoOn old = false → isVideoInitialized now = false).

(** *** Scenarios

    Slots of [pending] are handed out in program order: slot 0 is the
    model load of the mount; a click that switches the camera on takes
    the next three (toggleVideo's getUserMedia, the effect's
    getUserMedia, the model load of the second effect); each change of
    [isVideoInitialized] takes one more model load. *)

Definition models_loaded : Event := ModelsSettle 0 None None None.

(** Models loaded, camera switched on, both streams granted, metadata
    in, models loaded again: the gallery build of slot 5 is pending. *)
Definition camera_ready : list Event :=
  [ models_loaded; ClickToggle;
    GetUserMediaSettles 1 Granted; GetUserMediaSettles 2 Granted;
    LoadedMetadata; ModelsSettle 4 None None None ].

Definition gallery_built (k : nat) : Event :=
  GallerySettles k GallerySpec.two_images [0; 0; 1; 1].

(** Off and on again while the first gallery build is still running;
    then both builds finish. *)
Definition off_and_on_during_build : list Event :=
  camera_ready ++
  [ ClickToggle; ClickToggle;
    GetUserMediaSettles 7 Granted; GetUserMediaSettles 8 Granted;
    LoadedMetadata; ModelsSettle 10 None None None;
    gallery_built 5; gallery_built 11 ].

(** Camera on, both streams granted, camera off. *)
Definition on_then_off : list Event :=
  [ models_loaded; ClickToggle;
    GetUserMediaSettles 1 Granted; GetUserMediaSettles 2 Granted;
    ClickToggle ].


(** Switched off while the first gallery build is still running. *)
Definition off_during_build : list Event :=
  camera_ready ++ [ClickToggle].




(** The part_000 component while polling. *)
Definition legacy_polling : Legacy.World :=
  {| Legacy.st := {| Legacy.isVideoOn := true;
                     Legacy.isVideoInitialized := true;
                     Legacy.areModelsLoaded := true |};
     Legacy.video := Some {| Legacy.srcObject := Some 0;
                             Legacy.paused := false;
                             Legacy.onloadedmetadata := None |};
     Legacy.detectionIntervalRef := Some 0;
     Legacy.timers := {[0]};
     Legacy.timersCreated := 1;
     Legacy.streams := [[live]];
     Legacy.console := [] |}.

(** The part_000 component just after the camera was switched on. *)
Definition legacy_requested : Legacy.World :=
  {| Legacy.st := {| Legacy.isVideoOn := true;
                     Legacy.isVideoInitialized := false;
                     Legacy.areModelsLoaded := true |};
     Legacy.video := Some {| Legacy.srcObject := None;
                             Legacy.paused := false;
                             Legacy.onloadedmetadata := None |};
     Legacy.detectionIntervalRef := None;
     Legacy.timers := ∅;
     Legacy.timersCreated := 0;
     Legacy.streams := [];
     Legacy.console := [] |}.

(** *** Symbolic execution of one event-loop step *)

(** Callers are unfolded before the callbacks they call. *)
Ltac js_unfold :=
  unfold handle, step, settle, rerender, onRetry, after_gallery,
    onloadedmetadata_fires, after_getUserMedia, commit, cleanup,
    effect_video, effect_video_catch, toggleVideo, toggleVideo_rest,
    toggleVideo_catch, loadModels_resume, loadModels, onInterval,
    startFaceDetection_resume, startFaceDetection, initializeVideo_resume,
    initializeVideo, stopVideo, resumed, suspend, stop_tracks, clearInterval,
    setInterval, log, setIsLoading, setError, setAreModelsLoaded,
    setIsVideoInitialized, setIsVideoOn, skip in *;
  unfold exec, mbind, mret, js_bind, js_ret, Js.bind, Js.ret, gets, modify, when,
    try_catch, throw in *.

Ltac learn_tasks Hp :=
  repeat match goal with
  | H : ?p !! ?k = Some ?t |- _ =>
      lazymatch goal with
      | _ : task_ok _ _ t |- _ => fail
      | _ => pose proof (Forall_lookup_1 _ _ _ _ Hp H)
      end
  end.

End AppSpec.

(** ** The whole part_000 component

    [Legacy] holds the callbacks of the earlier revision one by one;
    this module adds what makes them a component: [startVideo] with its
    [setTimeout], the two effects, [toggleVideo], React's re-render and
    the event loop.  As in [App], every closure carries the render [r]
    that created it, and an exception nobody catches is dropped. *)

Module LegacyApp.
Import Legacy.

#[global] Instance Snapshot_eq_dec : EqDecision Snapshot.
Proof. solve_decision. Defined.

Definition initial : Snapshot :=
  {| isVideoOn := false; isVideoInitialized := false;
     areModelsLoaded := false |}.

(** A suspended promise or an armed timeout. *)
Inductive Task : Type :=
| AwaitGetUserMedia (r : Snapshot)  (* line 42, initializeVideo of render r *)
| AwaitModels (r : Snapshot)        (* line 78, loadModels() of the effect of render r *)
| Timeout (r : Snapshot)            (* line 60, setTimeout(startVideo, 100) *)
| AwaitPlay (r : Snapshot).         (* line 64, videoRef.current.play() *)

Record World : Type := {
  base : Legacy.World;
  alive : bool;                     (* the component is mounted *)
  metadataDue : bool;               (* a stream was attached and its
                                       loadedmetadata has not fired yet *)
  pending : list (option Task);
  closures : list Snapshot;         (* by timer id: the render whose
                                       [startFaceDetection] made the timer *)
  emptyRef : EmptyRef;              (* videoRef.current when there is no
                                       element *)
}.

Abbreviation Run := (Js World).

(** A callback of [Legacy] run inside the component. *)
Definition lift {A} (m : Js Legacy.World A) : Run A :=
  λ w, let '(c, b) := m (base w) in
       (c, {| base := b; alive := alive w; metadataDue := metadataDue w;
              pending := pending w; closures := closures w;
              emptyRef := emptyRef w |}).

Definition with_pending (p : list (option Task)) (w : World) : World :=
  {| base := base w; alive := alive w; metadataDue := metadataDue w;
     pending := p; closures := closures w; emptyRef := emptyRef w |}.

Definition with_due (b : bool) (w : World) : World :=
  {| base := base w; alive := alive w; metadataDue := b;
     pending := pending w; closures := closures w; emptyRef := emptyRef w |}.

Definition with_alive (b : bool) (w : World) : World :=
  {| base := base w; alive := b; metadataDue := metadataDue w;
     pending := pending w; closures := closures w; emptyRef := emptyRef w |}.

Definition with_emptyRef (e : EmptyRef) (w : World) : World :=
  {| base := base w; alive := alive w; metadataDue := metadataDue w;
     pending := pending w; closures := closures w; emptyRef := e |}.

Definition suspend (t : Task) : Run unit :=
  modify (λ w, with_pending (pending w ++ [Some t]) w).

Definition resumed (k : nat) : Run unit :=
  modify (λ w, with_pending (<[k := None]> (pending w)) w).

Definition setIsVideoInitialized (b : bool) : Js Legacy.World unit :=
  modify (λ w,
    {| st := {| isVideoOn := isVideoOn (st w);
                isVideoInitialized := b;
                areModelsLoaded := areModelsLoaded (st w) |};
       video := video w; detectionIntervalRef := detectionIntervalRef w;
       timers := timers w; timersCreated := timersCreated w;
       streams := streams w; console := console w |}).

Definition setAreModelsLoaded (b : bool) : Js Legacy.World unit :=
  modify (λ w,
    {| st := {| isVideoOn := isVideoOn (st w);
                isVideoInitialized := isVideoInitialized (st w);
                areModelsLoaded := b |};
       video := video w; detectionIntervalRef := detectionIntervalRef w;
       timers := timers w; timersCreated := timersCreated w;
       streams := streams w; console := console w |}).

Definition TypeError_play (e : EmptyRef) : string :=
  "Cannot read properties of " +:+ show_empty e +:+ " (reading 'play')".

(** lines 57-67.  The test reads the [isVideoInitialized] of the render
    that made this [startVideo], and the timeout calls the same
    function again. *)
Definition startVideo (r : Snapshot) : Run unit :=
  if negb (isVideoInitialized r)
  then suspend (Timeout r)
  else
    v ← gets (λ w, video (base w));
    match v with
    | Some el =>
        lift (set_video (Some {| srcObject := srcObject el; paused := false;
                                 onloadedmetadata := onloadedmetadata el |})) ;;
        suspend (AwaitPlay r)
    | None => e ← gets emptyRef; throw (TypeError_play e)
    end.

(** lines 94-127: the timer runs the interval callback of render [r]. *)
Definition startFaceDetection (r : Snapshot) : Run unit :=
  lift Legacy.startFaceDetection ;;
  modify (λ w,
    {| base := base w; alive := alive w; metadataDue := metadataDue w;
       pending := pending w; closures := closures w ++ [r];
       emptyRef := emptyRef w |}).

(** lines 40-42, up to [await navigator.mediaDevices.getUserMedia] *)
Definition initializeVideo (r : Snapshot) : Run unit :=
  suspend (AwaitGetUserMedia r).

(** lines 42-54, from the answer of getUserMedia on *)
Definition after_getUserMedia (r : Snapshot) (res : App.CameraResult)
  : Run unit :=
  v ← gets (λ w, video (base w));
  e ← gets emptyRef;
  lift (initializeVideo_resume r e res) ;;
  match res, v with
  | App.Granted, Some _ => modify (with_due true)
  | _, _ => mret ()
  end.

(** lines 45-50: the loadedmetadata handler set by render [r] *)
Definition onloadedmetadata_fires (r : Snapshot) : Run unit :=
  lift (setIsVideoInitialized true) ;;
  if areModelsLoaded r then startVideo r else mret ().

(** lines 28-37 and 76-88: [loadModels()] has settled; on a failure its
    own [catch] logs and throws again, and the [.catch] of the effect
    logs once more. *)
Definition loadModels_resume (r : Snapshot) (results : list (option string))
  : Run unit :=
  try_catch
    (match App.Promise_all results with
     | Some m =>
         lift (log (console_error "Error loading models:" m)) ;; throw m
     | None => mret ()
     end ;;
     lift (setAreModelsLoaded true) ;;
     if isVideoOn r then startVideo r else mret ())
    (λ m, lift (log (console_error "Error loading models:" m))).

(** lines 90-92: [setIsVideoOn((prevIsVideoOn) => !prevIsVideoOn)] *)
Definition toggleVideo : Run unit :=
  on ← gets (λ w, isVideoOn (st (base w)));
  lift (setIsVideoOn (negb on)).

(** *** React *)

(** lines 133-156: the <video> and the <canvas> are there when the
    models are loaded and the camera is switched on. *)
Definition shows_video (r : Snapshot) : bool :=
  areModelsLoaded r && isVideoOn r.

Definition fresh_video : VideoElement :=
  {| srcObject := None; paused := true; onloadedmetadata := None |}.

(** Mounting the element puts it into the ref; from then on the ref is
    null whenever there is no element. *)
Definition commit (r : Snapshot) : Run unit :=
  v ← gets (λ w, video (base w));
  if shows_video r
  then lift (set_video (Some (default fresh_video v))) ;;
       modify (with_emptyRef ref_null)
  else lift (set_video None).

(** lines 14-18: the body of the first effect *)
Definition effect_video (r : Snapshot) : Run unit :=
  if isVideoOn r then initializeVideo r else lift stopVideo.

(** line 25: [isVideoOn, isVideoInitialized] *)
Definition video_deps_changed (old r : Snapshot) : bool :=
  negb (bool_decide (isVideoOn r = isVideoOn old))
  || negb (bool_decide (isVideoInitialized r = isVideoInitialized old)).

(** The effects of this component set no state before they suspend, so
    one pass is all a state change brings about.  The second effect
    has no dependencies and runs at the mount only. *)
Definition rerender (old : Snapshot) (w : World) : World :=
  let r := st (base w) in
  if alive w && negb (bool_decide (r = old))
  then
    exec
      (commit r ;;
       when (video_deps_changed old r) (lift cleanup ;; effect_video r))
      w
  else w.

Definition unmounted : World :=
  {| base := {| st := initial; video := None; detectionIntervalRef := None;
                timers := ∅; timersCreated := 0; streams := [];
                console := [] |};
     alive := true; metadataDue := false; pending := []; closures := [];
     emptyRef := ref_undefined |}.

Definition mount : World :=
  exec (commit initial ;; effect_video initial ;; suspend (AwaitModels initial))
    unmounted.

(** *** The event loop *)

Inductive Event : Type :=
| ClickToggle
| GetUserMediaSettles (k : nat) (res : App.CameraResult)
| LoadedMetadata
| ModelsSettle (k : nat) (tinyFaceDetector faceLandmark68Net
                           faceRecognitionNet faceExpressionNet : option string)
| TimeoutFires (k : nat)
| PlaySettles (k : nat) (started : bool)
| Tick (timer : nat) (frame : App.FrameResult)
| Unmount.

Definition handle (e : Event) : Run unit :=
  match e with
  | ClickToggle =>
      up ← gets alive;
      when up toggleVideo
  | GetUserMediaSettles k res =>
      t ← gets (λ w, pending w !! k);
      match t with
      | Some (Some (AwaitGetUserMedia r)) => resumed k ;; after_getUserMedia r res
      | _ => mret ()
      end
  | LoadedMetadata =>
      v ← gets (λ w, video (base w));
      due ← gets metadataDue;
      match v with
      | Some el =>
          match srcObject el, onloadedmetadata el, due with
          | Some _, Some r, true =>
              modify (with_due false) ;; onloadedmetadata_fires r
          | _, _, _ => mret ()
          end
      | None => mret ()
      end
  | ModelsSettle k a b c d =>
      t ← gets (λ w, pending w !! k);
      match t with
      | Some (Some (AwaitModels r)) => resumed k ;; loadModels_resume r [a; b; c; d]
      | _ => mret ()
      end
  | TimeoutFires k =>
      t ← gets (λ w, pending w !! k);
      match t with
      | Some (Some (Timeout r)) => resumed k ;; startVideo r
      | _ => mret ()
      end
  | PlaySettles k started =>
      t ← gets (λ w, pending w !! k);
      match t with
      | Some (Some (AwaitPlay r)) =>
          resumed k ;;
          if started then startFaceDetection r else mret ()
      | _ => mret ()
      end
  | Tick timer frame =>
      active ← gets (λ w, timers (base w));
      c ← gets (λ w, closures w !! timer);
      match c with
      | Some r => when (bool_decide (timer ∈ active)) (lift (onInterval r frame))
      | None => mret ()
      end
  | Unmount =>
      up ← gets alive;
      when up
        (modify (with_alive false) ;;
         lift (set_video None) ;;
         lift cleanup)
  end.

Definition step (w : World) (e : Event) : World :=
  rerender (st (base w)) (exec (handle e) w).

Definition run (trace : list Event) : World := foldl step mount trace.

(** The stream the video surface shows, if any. *)
Definition attached (w : World) : option nat :=
  video (base w) ≫= srcObject.

End LegacyApp.

(** ** Vocabulary of the statements about the current revision that
    hold in every run *)

Module AppInvariants.
Import App.

(** When [toggleVideo] of render [r] switches the camera on, the
    [startFaceDetection] it will call is the one of render [r]. *)
Definition toggle_not_ready (c : option InitCaller) : Prop :=
  match c with
  | Some (ByToggle r) => isVideoInitialized r = false
  | _ => True
  end.

Definition not_from_toggle (t : option Task) : Prop :=
  match t with
  | Some (AwaitGetUserMedia c) => toggle_not_ready (Some c)
  | Some (AwaitGallery FromToggle) => False
  | _ => True
  end.

(** Between two events. *)
Definition coherent (w : World) : Prop :=
  Forall not_from_toggle (pending w) ∧
  toggle_not_ready (video w ≫= onloadedmetadata) ∧
  (is_Some (video w) → alive w = true ∧ isVideoOn (st w) = true) ∧
  (alive w = false → isVideoInitialized (st w) = false) ∧
  (isVideoInitialized (st w) = true → isVideoOn (st w) = true).

(** Between a callback and the render passes that follow it; [old] is
    the render before. *)
Definition settling (old : Snapshot) (w : World) : Prop :=
  Forall not_from_toggle (pending w) ∧
  toggle_not_ready (video w ≫= onloadedmetadata) ∧
  (is_Some (video w) → alive w = true ∧ isVideoOn old = true) ∧
  (alive w = false → isVideoInitialized (st w) = false) ∧
  (isVideoInitialized (st w) = true →
   isVideoOn (st w) = true ∨ isVideoOn old = true).

(** Stream [i] has a live track and is not the one the video surface
    shows. *)
Definition detached_live (w : World) (i : nat) : Prop :=
  attached w ≠ Some i ∧
  ∃ s, streams w !! i = Some s ∧ stream_live s = true.

(** The stream on the video surface is one that was handed out. *)
Definition attached_exists (w : World) : Prop :=
  ∀ a, attached w = Some a → a < length (streams w).

(** What a callback or a render pass does to the streams. *)
Definition streams_kept (w w' : World) : Prop :=
  attached_exists w' ∧ ∀ i, detached_live w i → detached_live w' i.

(** [clearInterval(handle)] on a set of active timers. *)
Definition cleared (handle : option nat) (t : gset nat) : gset nat :=
  match handle with Some id => t ∖ {[id]} | None => t end.

End AppInvariants.

(** ** Vocabulary of the statements about part_000 *)

Module LegacySpec.
Import Legacy LegacyApp.

(** What the suspended closures of part_000 have captured. *)
Definition captured (t : option Task) : Prop :=
  match t with
  | Some (Timeout r) => isVideoInitialized r = false
  | Some (AwaitPlay r) => isVideoInitialized r = true
  | Some (AwaitModels r) => isVideoOn r = false
  | _ => True
  end.

Definition well_formed (w : World) : Prop :=
  Forall captured (pending w) ∧
  Forall (λ r, isVideoInitialized r = true) (closures w).

(** A timeout of [startVideo] of render [r] is armed. *)
Definition armed (w : World) (r : Snapshot) : Prop :=
  Some (Timeout r) ∈ pending w.

(** Models loaded, camera switched on, stream granted. *)
Definition first_stream : list Event :=
  [ ModelsSettle 0 None None None None; ClickToggle;
    GetUserMediaSettles 1 App.Granted ].

(** ... metadata in (the effect asks again), second stream granted,
    metadata in, playback started. *)
Definition polling : list Event :=
  first_stream ++
  [ LoadedMetadata; GetUserMediaSettles 3 App.Granted; LoadedMetadata;
    PlaySettles 4 true ].

(** No track of any stream has been stopped. *)
Definition all_live (w : World) : Prop :=
  Forall (λ s, s = [App.live]) (streams (base w)).

End LegacySpec.

(** * Facts

    ** The gallery build *)

Section GalleryFacts.
Import Gallery GallerySpec.

Section Builds.
Variable labels : list string.
Variable images : Images.

Lemma bind_insert_app {A B} (f : A → list B) (ts : list A) p t t' x :
  ts !! p = Some t → f t' = f t ++ x →
  (<[p := t']> ts ≫= f) ≡ₚ (ts ≫= f) ++ x.
Proof.
  revert p. induction ts as [|a ts IH]; intros p Hp Hf; [done|].
  destruct p as [|p]; simpl in *.
  - simplify_eq. rewrite Hf. 
    rewrite <- !app_assoc. f_equiv. apply Permutation_app_comm.
  - rewrite (IH p Hp Hf). by rewrite app_assoc.
Qed.

Lemma Forall2_update_r {A B} (P : A → B → Prop) (l : list A) (k : list B) p x y :
  Forall2 P l k → l !! p = Some x → P x y → Forall2 P l (<[p := y]> k).
Proof.
  intros H Hx Hy. rewrite <- (list_insert_id l p x Hx). by apply Forall2_insert.
Qed.

Lemma seq_S_end n : seq 0 (S n) = seq 0 n ++ [n].
Proof. by rewrite seq_S. Qed.

Lemma faces_S l n :
  faces images l (S n) =
  faces images l n ++ match images l n with Face d => [d] | _ => [] end.
Proof. unfold faces. rewrite seq_S_end, bind_app. simpl. by rewrite app_nil_r. Qed.

Lemma warnings_S l n :
  (seq 0 (S n) ≫= image_warning images l) =
  (seq 0 n ≫= image_warning images l) ++ image_warning images l n.
Proof. rewrite seq_S_end, bind_app. simpl. by rewrite app_nil_r. Qed.

Lemma new_tasks_silent {B} (f : Task → list B) (ls : list string) :
  (∀ l, f (new_task l) = []) → ((new_task <$> ls) ≫= f) = [].
Proof. intros Hf. induction ls as [|l ls IH]; [done|]. csimpl. by rewrite Hf, IH. Qed.

Lemma inv_Current_start : inv_Current labels images (start labels).
Proof.
  repeat split; simpl.
  - apply Forall2_fmap_r, Forall_Forall2_diag, Forall_forall.
    intros l Hl. repeat split; simpl.
    destruct labels; [by apply elem_of_nil in Hl | simpl; lia].
  - by rewrite new_tasks_silent.
  - by rewrite new_tasks_silent.
Qed.

Lemma inv_Current_resume p b :
  inv_Current labels images b →
  inv_Current labels images (resume labels images Current p b).
Proof.
  intros (Htasks & Hshared & Hconsole & Hrej).
  unfold resume. destruct (tasks b !! p) as [t|] eqn:Hp; [|by repeat split].
  destruct (status t) eqn:Hst; try by repeat split.
  destruct (Forall2_lookup_r _ _ _ _ _ Htasks Hp) as (l & Hl & Hlab & Hreq & Hds & Hi).
  rewrite Hst in Hi. unfold asked in Hreq. rewrite Hst in Hreq.
  unfold iteration, body_Current.
  set (ds := match images (label t) (i t) with Face d => descriptors t ++ [d] | _ => descriptors t end).
  set (ws := image_warning images (label t) (i t)).
  assert (Hbody : (match images (label t) (i t) with
    | FetchFailed m | DetectFailed m =>
        (descriptors t, [console_warn (warn_prefix (label t) (i t)) m])
    | NoFace => (descriptors t, [])
    | Face d => (descriptors t ++ [d], [])
    end) = (ds, ws)).
  { unfold ds, ws, image_warning. by destruct (images (label t) (i t)). }
  rewrite Hbody. clear Hbody.
  assert (Hds' : ds = faces images l (S (i t))).
  { rewrite faces_S, <- Hds, <- Hlab. unfold ds.
    destruct (images (label t) (i t)); by rewrite ?app_nil_r. }
  case_bool_decide as Hmore; simpl.
  - repeat split; simpl.
    + eapply Forall2_update_r; [exact Htasks | exact Hl |].
      repeat split; cbn -[seq]; [done| by rewrite (seq_S_end (S (i t))), Hreq | done | done].
    + rewrite app_nil_r, Hshared. symmetry.
      rewrite <- (app_nil_r (tasks b ≫= contribution)).
      eapply bind_insert_app; [done|].
      unfold contribution, fulfilled. simpl. by rewrite Hst.
    + rewrite Hconsole. symmetry.
      eapply bind_insert_app; [done|].
      unfold warnings_so_far. cbn -[seq]. by rewrite warnings_S.
    + by rewrite Hrej.
  - repeat split; simpl.
    + eapply Forall2_update_r; [exact Htasks | exact Hl |].
      repeat split; cbn -[seq]; [done | done | done | lia].
    + rewrite Hshared. symmetry.
      eapply bind_insert_app; [done|].
      unfold contribution, fulfilled. simpl. by rewrite Hst.
    + rewrite Hconsole. symmetry.
      eapply bind_insert_app; [done|].
      unfold warnings_so_far. cbn -[seq]. by rewrite warnings_S.
    + by rewrite Hrej.
Qed.

Lemma inv_Current_run schedule :
  inv_Current labels images (run labels images Current schedule).
Proof.
  unfold run. generalize inv_Current_start. generalize (start labels).
  induction schedule as [|p sch IH]; intros b Hb; [done|].
  simpl. apply IH. by apply inv_Current_resume.
Qed.

Lemma inv_Earlier_start : inv_Earlier labels images (start labels).
Proof.
  split; simpl.
  - apply Forall2_fmap_r, Forall_Forall2_diag, Forall_forall.
    intros l Hl. repeat split; simpl; [lia|].
    destruct labels; [by apply elem_of_nil in Hl | simpl; lia].
  - intros _. apply Forall_fmap, Forall_forall. by intros l _ m.
Qed.

Lemma inv_Earlier_resume p b :
  inv_Earlier labels images b →
  inv_Earlier labels images (resume labels images Earlier p b).
Proof.
  intros (Htasks & Hrej).
  unfold resume. destruct (tasks b !! p) as [t|] eqn:Hp; [|by split].
  destruct (status t) eqn:Hst; try by split.
  destruct (Forall2_lookup_r _ _ _ _ _ Htasks Hp) as (l & Hl & Hlab & Hfaces & Hi).
  rewrite Hst in Hi. destruct Hi as [Hi Hreq].
  unfold iteration, body_Earlier. rewrite Hlab.
  assert (Hold : ∀ d, images l (i t) = Face d →
            ∀ k, k < S (i t) → is_face (images l k) = true).
  { intros d Hd k Hk. destruct (decide (k = i t)) as [->|]; [by rewrite Hd|].
    apply Hfaces. lia. }
  destruct (images l (i t)) as [m|m| |d] eqn:Himg.
  1-3: split; cbn -[seq];
    [ eapply Forall2_update_r; [exact Htasks | exact Hl |];
      repeat split; cbn -[seq]; [done|done|done|by rewrite Himg]
    | by destruct (rejection b) ].
  case_bool_decide as Hmore; split; cbn -[seq].
  - eapply Forall2_update_r; [exact Htasks | exact Hl |].
    repeat split; cbn -[seq];
      [by eapply Hold|done|by rewrite (seq_S_end (S (i t))), Hreq].
  - intros Hnone. destruct (rejection b); [done|].
    apply Forall_insert; [by apply Hrej|]. by intros m.
  - eapply Forall2_update_r; [exact Htasks | exact Hl |].
    repeat split; cbn -[seq]; [by eapply Hold|lia|done].
  - intros Hnone. destruct (rejection b); [done|].
    apply Forall_insert; [by apply Hrej|]. by intros m.
Qed.

Lemma inv_Earlier_run schedule :
  inv_Earlier labels images (run labels images Earlier schedule).
Proof.
  unfold run. generalize inv_Earlier_start. generalize (start labels).
  induction schedule as [|p sch IH]; intros b Hb; [done|].
  simpl. apply IH. by apply inv_Earlier_resume.
Qed.

(** Progress: a running task has images left, and each resumption
    uses one up. *)
Lemma in_bounds_start : in_bounds labels (start labels).
Proof.
  apply Forall_fmap, Forall_forall. intros l Hl _. simpl.
  destruct labels; [by apply elem_of_nil in Hl | simpl; lia].
Qed.

Lemma iteration_shape rev t :
  let t' := (iteration labels images rev t).1.1 in
  (status t' = Running → i t' < length labels) ∧
  (is_running t' = true → i t' = S (i t)).
Proof.
  unfold iteration. destruct rev.
  - destruct (body_Current images t) as [ds ws]. simpl.
    case_bool_decide; simpl; split; done.
  - destruct (body_Earlier images t); simpl; [|done].
    case_bool_decide; simpl; split; done.
Qed.

Lemma resume_tasks rev p b t :
  tasks b !! p = Some t → status t = Running →
  tasks (resume labels images rev p b)
  = <[p := (iteration labels images rev t).1.1]> (tasks b).
Proof.
  intros Hp Hst. unfold resume. rewrite Hp, Hst.
  by destruct (iteration labels images rev t) as [[t' ?] ?].
Qed.

Lemma resume_settled rev p b t :
  tasks b !! p = Some t → is_running t = false →
  resume labels images rev p b = b.
Proof.
  intros Hp Hst. unfold resume. rewrite Hp.
  unfold is_running in Hst. by destruct (status t).
Qed.

Lemma resume_length rev p b :
  length (tasks (resume labels images rev p b)) = length (tasks b).
Proof.
  unfold resume. destruct (tasks b !! p) as [t|]; [|done].
  destruct (status t); try done.
  destruct (iteration labels images rev t) as [[t' ?] ?]. simpl.
  by rewrite length_insert.
Qed.

Lemma in_bounds_resume rev p b :
  in_bounds labels b → in_bounds labels (resume labels images rev p b).
Proof.
  intros Hb. destruct (tasks b !! p) as [t|] eqn:Hp.
  - destruct (is_running t) eqn:Hrun.
    + unfold in_bounds. rewrite (resume_tasks rev p b t Hp).
      * apply Forall_insert; [done|]. apply iteration_shape.
      * unfold is_running in Hrun. by destruct (status t).
    + by rewrite (resume_settled rev p b t).
  - unfold resume. by rewrite Hp.
Qed.

(** A task that has settled stays as it is, whoever resumes. *)
Lemma settled_task_stays rev p q b t :
  tasks b !! q = Some t → is_running t = false →
  tasks (resume labels images rev p b) !! q = Some t.
Proof.
  intros Hq Hst. destruct (decide (p = q)) as [->|Hne].
  - by rewrite (resume_settled rev q b t).
  - unfold resume. destruct (tasks b !! p) as [u|]; [|done].
    destruct (status u); try done.
    destruct (iteration labels images rev u) as [[u' ?] ?]. simpl.
    by rewrite list_lookup_insert_ne.
Qed.

Lemma settled_task_stays_run rev ps q b t :
  tasks b !! q = Some t → is_running t = false →
  tasks (foldl (λ b p, resume labels images rev p b) b ps) !! q = Some t.
Proof.
  revert b. induction ps as [|p ps IH]; intros b Hq Hst; [done|].
  simpl. apply IH; [|done]. by apply settled_task_stays.
Qed.

Lemma replicate_settles rev p n : ∀ b t,
  in_bounds labels b → tasks b !! p = Some t → (length labels ≤ i t + n)%nat →
  ∃ t', tasks (foldl (λ b p, resume labels images rev p b) b (replicate n p)) !! p
        = Some t' ∧ is_running t' = false.
Proof.
  induction n as [|n IH]; intros b t Hb Hp Hn.
  - simpl. exists t. split; [done|].
    destruct (is_running t) eqn:Hrun; [|done].
    unfold is_running in Hrun. destruct (status t) eqn:Hst; try done.
    pose proof (Forall_lookup_1 _ _ _ _ Hb Hp Hst). lia.
  - simpl. destruct (is_running t) eqn:Hrun.
    + assert (Hst : status t = Running).
      { unfold is_running in Hrun. by destruct (status t). }
      pose proof (iteration_shape rev t) as [_ Hnext]. simpl in Hnext.
      set (t1 := (iteration labels images rev t).1.1) in *.
      assert (Hp1 : tasks (resume labels images rev p b) !! p = Some t1).
      { rewrite (resume_tasks rev p b t Hp Hst).
        apply list_lookup_insert_eq. by eapply lookup_lt_Some. }
      destruct (is_running t1) eqn:Hrun1.
      * apply (IH _ t1); [by apply in_bounds_resume|done|].
        rewrite (Hnext eq_refl). lia.
      * exists t1. split; [|done]. by apply settled_task_stays_run.
    + exists t. split; [|done].
      apply settled_task_stays_run; [|done]. by apply settled_task_stays.
Qed.

Lemma in_bounds_run rev ps b :
  in_bounds labels b → in_bounds labels (foldl (λ b p, resume labels images rev p b) b ps).
Proof.
  revert b. induction ps as [|p ps IH]; intros b Hb; [done|].
  simpl. by apply IH, in_bounds_resume.
Qed.

Lemma length_run rev ps b :
  length (tasks (foldl (λ b p, resume labels images rev p b) b ps))
  = length (tasks b).
Proof.
  revert b. induction ps as [|p ps IH]; intros b; [done|].
  simpl. by rewrite IH, resume_length.
Qed.

Lemma turns_settle rev (ps : list nat) : ∀ b,
  in_bounds labels b →
  ∀ p, p ∈ ps → p < length (tasks b) →
  ∃ t, tasks (foldl (λ b p, resume labels images rev p b) b
                (ps ≫= replicate (length labels))) !! p = Some t
       ∧ is_running t = false.
Proof.
  induction ps as [|q ps IH]; intros b Hb p Hin Hlt.
  - by apply elem_of_nil in Hin.
  - csimpl. rewrite foldl_app.
    set (b1 := foldl _ b (replicate (length labels) q)).
    assert (Hb1 : in_bounds labels b1) by by apply in_bounds_run.
    assert (Hlen : length (tasks b1) = length (tasks b)) by apply length_run.
    destruct (decide (p ∈ ps)) as [Hps|Hps].
    + apply IH; [done|done|lia].
    + apply elem_of_cons in Hin as [->|]; [|done].
      destruct (lookup_lt_is_Some_2 (tasks b) q Hlt) as [t Ht].
      destruct (replicate_settles rev q (length labels) b t Hb Ht) as (t' & Ht' & Hrun);
        [lia|].
      exists t'. split; [|done]. by apply settled_task_stays_run.
Qed.

(** Run one by one, every task settles. *)
Lemma one_by_one_settles rev :
  Forall (λ t, is_running t = false)
    (tasks (run labels images rev (one_by_one labels))).
Proof.
  apply Forall_lookup. intros p t Hp.
  assert (Hlen : length (tasks (run labels images rev (one_by_one labels)))
                 = length labels).
  { unfold run. rewrite length_run. simpl. by rewrite length_fmap. }
  assert (Hlt : p < length labels).
  { rewrite <- Hlen. by eapply lookup_lt_Some. }
  destruct (turns_settle rev (seq 0 (length labels)) (start labels)
              in_bounds_start p) as (t' & Ht' & Hrun).
  - apply elem_of_seq. lia.
  - simpl. by rewrite length_fmap.
  - unfold run, one_by_one in Hp.
    assert (Some t = Some t') as [= ->] by (rewrite <- Hp; exact Ht').
    done.
Qed.

(** Tasks that agree with their labels contribute what the labels say. *)
Lemma bind_Forall2 {A B C} (P : A → B → Prop) (f : B → list C) (g : A → list C)
    (ls : list A) (ts : list B) :
  Forall2 P ls ts → (∀ l t, P l t → f t = g l) → (ts ≫= f) = (ls ≫= g).
Proof.
  intros H Hfg. induction H as [|l t ls ts Hlt _ IH]; [done|].
  csimpl. by rewrite (Hfg l t Hlt), IH.
Qed.

Lemma all_fulfilled (b : Build) :
  forallb fulfilled (tasks b) = true → Forall (λ t, status t = Fulfilled) (tasks b).
Proof.
  intros H. apply Forall_forall. intros t Ht.
  rewrite forallb_forall in H. apply list_elem_of_In, H in Ht.
  unfold fulfilled in Ht. by destruct (status t).
Qed.

Lemma settled_Normal (b : Build) g :
  settled b = Some (Normal g) →
  rejection b = None ∧ Forall (λ t, status t = Fulfilled) (tasks b) ∧
  g = labeledFaceDescriptors b.
Proof.
  unfold settled. destruct (rejection b); [done|].
  destruct (forallb fulfilled (tasks b)) eqn:Hall; [|done].
  intros [= <-]. split; [done|]. split; [|done]. by apply all_fulfilled.
Qed.

Lemma Current_result schedule g :
  getLabeledFaceDescriptions labels images Current schedule = Some (Normal g) →
  g ≡ₚ expected_gallery labels images ∧
  console (run labels images Current schedule) ≡ₚ expected_warnings labels images ∧
  Forall (λ t, requested t = seq 0 (length labels))
    (tasks (run labels images Current schedule)).
Proof.
  unfold getLabeledFaceDescriptions. intros Hs.
  destruct (settled_Normal _ _ Hs) as (_ & Hall & ->).
  destruct (inv_Current_run schedule) as (Htasks & Hshared & Hconsole & _).
  assert (Hdone : Forall2 (λ l t, task_ok_Current labels images l t ∧ status t = Fulfilled)
                    labels (tasks (run labels images Current schedule))).
  { apply Forall2_same_length_lookup_2; [by eapply Forall2_length|].
    intros p l t Hl Ht. split.
    - by eapply Forall2_lookup_lr.
    - by apply (Forall_lookup_1 _ _ _ _ Hall Ht). }
  repeat split.
  - rewrite Hshared. unfold expected_gallery.
    erewrite bind_Forall2; [done|exact Hdone|].
    intros l t [(Hl & _ & Hds & Hi) Hst]. rewrite Hst in Hi.
    unfold contribution, fulfilled. by rewrite Hst, Hl, Hds, Hi.
  - rewrite Hconsole. unfold expected_warnings.
    erewrite bind_Forall2; [done|exact Hdone|].
    intros l t [(Hl & _ & _ & Hi) Hst]. rewrite Hst in Hi.
    unfold warnings_so_far. by rewrite Hl, Hi.
  - apply Forall_forall. intros t Ht.
    apply list_elem_of_lookup in Ht as [p Hp].
    destruct (Forall2_lookup_r _ _ _ _ _ Hdone Hp) as (l & _ & (_ & Hreq & _ & Hi) & Hst).
    unfold asked in Hreq. rewrite Hst in Hi, Hreq. by rewrite Hreq, Hi.
Qed.

Lemma Current_never_rejects schedule m :
  getLabeledFaceDescriptions labels images Current schedule ≠ Some (Thrown m).
Proof.
  unfold getLabeledFaceDescriptions, settled.
  destruct (inv_Current_run schedule) as (_ & _ & _ & ->).
  by destruct (forallb _ _).
Qed.

Lemma forallb_fulfilled (ts : list Task) :
  Forall (λ t, status t = Fulfilled) ts → forallb fulfilled ts = true.
Proof.
  intros H. apply forallb_forall. intros t Ht.
  apply list_elem_of_In in Ht. rewrite Forall_forall in H.
  unfold fulfilled. by rewrite (H t Ht).
Qed.

(** The current revision always comes back with a gallery. *)
Lemma Current_total :
  ∃ g, getLabeledFaceDescriptions labels images Current (one_by_one labels)
       = Some (Normal g).
Proof.
  unfold getLabeledFaceDescriptions, settled.
  destruct (inv_Current_run (one_by_one labels)) as (Htasks & _ & _ & ->).
  rewrite forallb_fulfilled; [by eexists|].
  apply Forall_lookup. intros p t Hp.
  pose proof (Forall_lookup_1 _ _ _ _ (one_by_one_settles Current) Hp) as Hrun.
  destruct (Forall2_lookup_r _ _ _ _ _ Htasks Hp) as (l & _ & _ & _ & _ & Hst).
  unfold is_running in Hrun. by destruct (status t).
Qed.

(** The earlier revision comes back with a gallery or with the first
    rejection. *)
Lemma Earlier_total :
  let b := run labels images Earlier (one_by_one labels) in
  settled b = match rejection b with
              | Some m => Some (Thrown m)
              | None => Some (Normal (labeledFaceDescriptors b))
              end.
Proof.
  intros b. unfold settled.
  destruct (rejection b) eqn:Hrej; [done|].
  destruct (inv_Earlier_run (one_by_one labels)) as (_ & Hnone).
  specialize (Hnone Hrej).
  rewrite forallb_fulfilled; [done|].
  apply Forall_lookup. intros p t Hp.
  pose proof (Forall_lookup_1 _ _ _ _ (one_by_one_settles Earlier) Hp) as Hrun.
  pose proof (Forall_lookup_1 _ _ _ _ Hnone Hp) as Hnot.
  unfold is_running in Hrun. destruct (status t) as [| |m] eqn:Hst; try done.
  exfalso. by eapply Hnot.
Qed.

Lemma Earlier_result schedule g :
  getLabeledFaceDescriptions labels images Earlier schedule = Some (Normal g) →
  (∀ l k, l ∈ labels → k < length labels → is_face (images l k) = true) ∧
  Forall (λ t, requested t = seq 0 (length labels))
    (tasks (run labels images Earlier schedule)).
Proof.
  unfold getLabeledFaceDescriptions. intros Hs.
  destruct (settled_Normal _ _ Hs) as (_ & Hall & _).
  destruct (inv_Earlier_run schedule) as (Htasks & _).
  split.
  - intros l k Hl Hk. apply list_elem_of_lookup in Hl as [p Hp].
    destruct (Forall2_lookup_l _ _ _ _ _ Htasks Hp) as (t & Ht & _ & Hfaces & Hi).
    rewrite (Forall_lookup_1 _ _ _ _ Hall Ht) in Hi. destruct Hi as [Hi _].
    apply Hfaces. lia.
  - apply Forall_lookup. intros p t Ht.
    destruct (Forall2_lookup_r _ _ _ _ _ Htasks Ht) as (l & _ & _ & _ & Hi).
    rewrite (Forall_lookup_1 _ _ _ _ Hall Ht) in Hi. destruct Hi as [Hi Hreq].
    by rewrite Hreq, Hi.
Qed.

Lemma Earlier_aborts l k :
  l ∈ labels → k < length labels → is_face (images l k) = false →
  (∀ schedule g,
     getLabeledFaceDescriptions labels images Earlier schedule ≠ Some (Normal g)) ∧
  ∃ m, getLabeledFaceDescriptions labels images Earlier (one_by_one labels)
       = Some (Thrown m).
Proof.
  intros Hl Hk Hface.
  assert (Hnever : ∀ schedule g,
    getLabeledFaceDescriptions labels images Earlier schedule ≠ Some (Normal g)).
  { intros schedule g Hs. destruct (Earlier_result schedule g Hs) as [Hall _].
    specialize (Hall l k Hl Hk). congruence. }
  split; [done|].
  pose proof Earlier_total as Htot. simpl in Htot.
  destruct (rejection (run labels images Earlier (one_by_one labels)))
    as [m|] eqn:Hrej.
  - by exists m.
  - exfalso. by eapply (Hnever (one_by_one labels)).
Qed.

End Builds.

Lemma expected_gallery_nonempty labels images :
  Forall (λ x, lfd_descriptors x ≠ []) (expected_gallery labels images).
Proof.
  apply Forall_forall. intros x Hx. unfold expected_gallery in Hx.
  apply list_elem_of_bind in Hx as (l & Hx & _).
  unfold to_push in Hx. case_bool_decide as Hlen; [|by apply elem_of_nil in Hx].
  apply list_elem_of_singleton in Hx as ->. simpl.
  intros Hnil. rewrite Hnil in Hlen. simpl in Hlen. lia.
Qed.

Lemma requested_shape labels images rev schedule :
  Forall2
    (λ l t,
       label t = l ∧
       match status t with
       | Running => ∃ n, n < length labels ∧ requested t = seq 0 (S n)
       | Fulfilled => requested t = seq 0 (length labels)
       | Rejected _ =>
           rev = Earlier ∧
           ∃ n, n < length labels ∧ requested t = seq 0 (S n) ∧
                is_face (images l n) = false ∧
                ∀ k, k < n → is_face (images l k) = true
       end)
    labels (tasks (run labels images rev schedule)).
Proof.
  destruct rev.
  - destruct (inv_Current_run labels images schedule) as (Htasks & _).
    eapply Forall2_impl; [exact Htasks|].
    intros l t (Hl & Hreq & _ & Hst). split; [done|].
    unfold asked in Hreq.
    destruct (status t); [by eauto| by rewrite Hreq, Hst | done].
  - destruct (inv_Earlier_run labels images schedule) as (Htasks & _).
    eapply Forall2_impl; [exact Htasks|].
    intros l t (Hl & Hfaces & Hst). split; [done|].
    destruct (status t).
    + destruct Hst as [Hi Hreq]. eauto.
    + destruct Hst as [Hi Hreq]. by rewrite Hreq, Hi.
    + destruct Hst as (Hi & Hreq & Hface). split; [done|]. eauto 10.
Qed.

Lemma expected_gallery_spelled labels images :
  expected_gallery labels images
  = (λ l, {| lfd_label := l;
             lfd_descriptors := faces images l (length labels) |})
    <$> filter (λ l, faces images l (length labels) ≠ []) labels.
Proof.
  unfold expected_gallery. generalize (length labels) as n. intros n.
  induction labels as [|l ls IH]; [done|].
  csimpl. rewrite IH, filter_cons. unfold to_push.
  case_decide as Hne.
  - rewrite bool_decide_eq_true_2; [done|].
    destruct (faces images l n); [done|simpl; lia].
  - by destruct (faces images l n).
Qed.

(** C8 (amended).  In the current revision the build never rejects
    and always comes back; the gallery it returns holds, in some order,
    exactly one entry per label that has a face in one of its images
    0 .. N-1, with the descriptors of those faces in image order (a
    label without any is left out, so no entry is empty), and the
    console holds one warning per image whose fetch or detection
    threw, none for an image without a face.  In the earlier revision
    one image that fails or shows no face makes every build that ends
    end rejected. *)
Theorem gallery_skips_failed_images (labels : list string) (images : Images) :
  (∀ schedule m,
     getLabeledFaceDescriptions labels images Current schedule ≠ Some (Thrown m)) ∧
  (∃ g, getLabeledFaceDescriptions labels images Current (one_by_one labels)
        = Some (Normal g)) ∧
  (∀ schedule g,
     getLabeledFaceDescriptions labels images Current schedule = Some (Normal g) →
     g ≡ₚ (λ l, {| lfd_label := l;
                   lfd_descriptors := faces images l (length labels) |})
          <$> filter (λ l, faces images l (length labels) ≠ []) labels ∧
     Forall (λ x, lfd_descriptors x ≠ []) g ∧
     console (run labels images Current schedule)
       ≡ₚ expected_warnings labels images) ∧
  (∀ l k,
     l ∈ labels → k < length labels → is_face (images l k) = false →
     (∀ schedule g,
        getLabeledFaceDescriptions labels images Earlier schedule ≠ Some (Normal g)) ∧
     ∃ m, getLabeledFaceDescriptions labels images Earlier (one_by_one labels)
          = Some (Thrown m)).
Proof.
  split; [|split; [|split]].
  - apply Current_never_rejects.
  - apply Current_total.
  - intros schedule g Hg.
    destruct (Current_result labels images schedule g Hg) as (Hperm & Hwarn & _).
    repeat split; [by rewrite Hperm, expected_gallery_spelled| |done].
    rewrite Hperm. apply expected_gallery_nonempty.
  - apply Earlier_aborts.
Qed.

Lemma gallery_skips_witness :
  (∃ m, getLabeledFaceDescriptions two_labels two_images Earlier
          (one_by_one two_labels) = Some (Thrown m)) ∧
  [ {| lfd_label := "ann"; lfd_descriptors := [7] |} ]
    ≡ₚ (λ l, {| lfd_label := l;
                lfd_descriptors := faces two_images l (length two_labels) |})
       <$> filter (λ l, faces two_images l (length two_labels) ≠ []) two_labels.
Proof.
  destruct (gallery_skips_failed_images two_labels two_images)
    as (_ & _ & Hcurrent & Hearlier).
  split.
  - apply (Hearlier "ann" 1); [constructor | simpl; lia | reflexivity].
  - apply (Hcurrent [1; 0; 1; 0]). reflexivity.
Defined.

Lemma gallery_skips_counterexample :
  (* earlier revision: one missing image and the whole build is rejected *)
  getLabeledFaceDescriptions two_labels two_images Earlier (one_by_one two_labels)
  = Some (Thrown "404") ∧
  (* current revision: images without a face are passed over in silence *)
  (let b := run two_labels (λ _ _, NoFace) Current (one_by_one two_labels) in
   settled b = Some (Normal []) ∧ console b = []).
Proof. vm_compute. done. Qed.

(** C9 (amended).  A task asks for image indices 0, 1, 2, ... in order,
    for at least one and never for more than the number of labels; a
    fulfilled task has asked for exactly 0 .. N-1 with N the number of
    labels, and so has every task when a build returns a gallery (the
    current revision always does).  A task of the earlier revision that
    meets a failing image is rejected there and has asked for the
    indices up to that image only. *)
Theorem gallery_fetch_bound (labels : list string) (images : Images) :
  (∀ rev schedule,
     Forall2
       (λ l t,
          label t = l ∧
          match status t with
          | Running => ∃ n, n < length labels ∧ requested t = seq 0 (S n)
          | Fulfilled => requested t = seq 0 (length labels)
          | Rejected _ =>
              rev = Earlier ∧
              ∃ n, n < length labels ∧ requested t = seq 0 (S n) ∧
                   is_face (images l n) = false ∧
                   ∀ k, k < n → is_face (images l k) = true
          end)
       labels (tasks (run labels images rev schedule))) ∧
  (∀ rev schedule g,
     getLabeledFaceDescriptions labels images rev schedule = Some (Normal g) →
     Forall (λ t, requested t = seq 0 (length labels))
       (tasks (run labels images rev schedule))) ∧
  (∃ g, getLabeledFaceDescriptions labels images Current (one_by_one labels)
        = Some (Normal g)).
Proof.
  split; [|split].
  - apply requested_shape.
  - intros [] schedule g Hg.
    + by destruct (Current_result labels images schedule g Hg) as (_ & _ & H).
    + by destruct (Earlier_result labels images schedule g Hg) as (_ & H).
  - apply Current_total.
Qed.

Lemma gallery_fetch_bound_witness :
  Forall (λ t, requested t = seq 0 (length two_labels))
    (tasks (run two_labels two_images Current [1; 0; 1; 0])).
Proof.
  destruct (gallery_fetch_bound two_labels two_images) as (_ & Hdone & _).
  apply (Hdone Current [1; 0; 1; 0] [ {| lfd_label := "ann"; lfd_descriptors := [7] |} ]).
  reflexivity.
Defined.

Lemma gallery_fetch_bound_counterexample :
  requested <$> tasks (run two_labels two_images Earlier (one_by_one two_labels))
  = [[0; 1]; [0]] ∧
  length two_labels = 2.
Proof. vm_compute. done. Qed.

End GalleryFacts.

(** ** The component *)

Section AppFacts.
Import App AppSpec.
#[local] Set Warnings "-clear-no-such-hyp".

Lemma task_ok_grows cam s s' t :
  grows cam s s' → task_ok cam s t → task_ok cam s' t.
Proof.
  intros [Hm Hi]. destruct t as [[[r|c]|r|c]|]; simpl; unfold captured_ok; naive_solver.
Qed.

Lemma caller_ok_grows cam s s' c :
  grows cam s s' → caller_ok cam s c → caller_ok cam s' c.
Proof.
  intros [Hm Hi]. destruct c as [[r|c]|]; simpl; unfold captured_ok; naive_solver.
Qed.

Lemma Forall_task_ok_grows cam s s' ts :
  grows cam s s' → Forall (task_ok cam s) ts → Forall (task_ok cam s') ts.
Proof.
  intros Hg H. eapply Forall_impl; [exact H|]. intros t. by apply task_ok_grows.
Qed.

Lemma is_Some_Some_True {A} (x : A) : is_Some (Some x) ↔ True.
Proof. split; [done|]. intros _. by exists x. Qed.

Ltac props :=
  unfold inv, grows, follows, task_ok, caller_ok, captured_ok, camera_ok, keeps_on,
    shows_video, shows_toggle, shows_retry in *;
  cbn in *;
  repeat match goal with
  | H : is_Some None |- _ => destruct H as [? [=]]
  | H : _ && _ = true |- _ => apply andb_true_iff in H; destruct H
  | H : _ || _ = false |- _ => apply orb_false_iff in H; destruct H
  | H : _ || _ = true |- _ => apply orb_true_iff in H; destruct H
  | H : negb _ = true |- _ => apply negb_true_iff in H
  | H : negb _ = false |- _ => apply negb_false_iff in H
  | H : bool_decide _ = true |- _ => apply bool_decide_eq_true_1 in H
  | H : bool_decide _ = false |- _ => apply bool_decide_eq_false_1 in H
  | H : ?b ≠ _ |- _ => is_var b; destruct b; try done
  | H : _ ≠ ?b |- _ => is_var b; destruct b; try done
  end;
  simplify_eq/=;
  repeat match goal with
  | H : context [is_Some (Some _)] |- _ => setoid_rewrite is_Some_Some_True in H
  end;
  try (intuition (first [ discriminate | congruence | eauto ])).

Ltac leaf Hp Hh :=
  try match goal with
      | H : onloadedmetadata _ = _ |- _ =>
          let fired := fresh "Hfired" in
          pose proof Hh as fired; rewrite H in fired
      end;
  repeat split;
  first
    [ (* the suspended tasks *)
      solve
        [ repeat first
            [ apply Forall_app; split
            | apply Forall_insert
            | apply Forall_cons; split
            | apply Forall_nil ];
          first [ eapply Forall_task_ok_grows; [|exact Hp] | idtac ];
          props ]
    | (* the handler on the video element: the old one, *)
      solve [ eapply caller_ok_grows; [|exact Hh]; props ]
    | (* the old one, fired just now, *)
      solve [ match goal with
              | H : onloadedmetadata _ = _ |- _ => rewrite H in Hh
              end;
              eapply caller_ok_grows; [|exact Hh]; props ]
    | (* or a new one *)
      solve [ props ] ].

Lemma handle_inv labels cam w e :
  inv cam w → (cam = true → keeps_on w e = true) →
  let w' := exec (handle labels (st w) e) w in
  inv cam w' ∧ follows cam (st w) (st w').
Proof.
  intros (Hp & Hh & Hc) Hk.
  destruct w as [[on init models err ld] a v r t n ss m c p cs]. cbn in *.
  destruct e; js_unfold; cbn.
  all: repeat case_match; simplify_eq/=; learn_tasks Hp.
  all: leaf Hp Hh.
Qed.

Lemma rerender_inv cam old w :
  inv cam w → follows cam old (st w) →
  inv cam (rerender old w) ∧ follows cam (st w) (st (rerender old w)).
Proof.
  intros (Hp & Hh & Hc) Hf.
  destruct w as [[on init models err ld] a v r t n ss m c p cs].
  destruct old as [on' init' models' err' ld'].
  destruct v as [[src h l]|]; cbn in *.
  all: js_unfold; cbn.
  all: unfold video_deps_changed, models_deps_changed.
  all: repeat (case_match; unfold Js.ret in *; simplify_eq/=); learn_tasks Hp.
  all: leaf Hp Hh.
Qed.

Ltac run_effects :=
  js_unfold; cbn; repeat (case_match; unfold Js.ret in *; simplify_eq/=).

Lemma rerender_st old w :
  st (rerender old w) =
  if alive w && negb (bool_decide (st w = old)) then
    {| isVideoOn := isVideoOn (st w);
       isVideoInitialized :=
         if video_deps_changed old (st w) then false
         else isVideoInitialized (st w);
       areModelsLoaded := areModelsLoaded (st w);
       error := error (st w);
       isLoading :=
         if models_deps_changed old (st w) then true else isLoading (st w) |}
  else st w.
Proof.
  destruct w as [[on init models err ld] a v r t n ss m c p cs].
  unfold rerender. cbn [st alive]. destruct (a && _); [|done].
  destruct (video_deps_changed _ _), (models_deps_changed _ _).
  all: run_effects; done.
Qed.

Lemma rerender_alive old w : alive (rerender old w) = alive w.
Proof.
  destruct w as [[on init models err ld] a v r t n ss m c p cs].
  unfold rerender. cbn [st alive]. destruct (a && _); [|done].
  destruct (video_deps_changed _ _), (models_deps_changed _ _).
  all: run_effects; done.
Qed.

Lemma rerender_timersCreated old w :
  timersCreated (rerender old w) = timersCreated w.
Proof.
  destruct w as [[on init models err ld] a v r t n ss m c p cs].
  unfold rerender. cbn [st alive]. destruct (a && _); [|done].
  destruct (video_deps_changed _ _), (models_deps_changed _ _).
  all: run_effects; done.
Qed.

Lemma settle_timersCreated old w :
  timersCreated (settle old w) = timersCreated w.
Proof. unfold settle. by rewrite !rerender_timersCreated. Qed.

Lemma rerender_same w : rerender (st w) w = w.
Proof.
  unfold rerender. rewrite bool_decide_eq_true_2 by done.
  by rewrite andb_false_r.
Qed.

Lemma settle_same w : settle (st w) w = w.
Proof. unfold settle. by rewrite !rerender_same. Qed.

(** The second pass renders the state the effects of the first pass
    left, and leaves it as it is: a third pass would do nothing. *)
Lemma settle_quiescent old w :
  st (settle old w) = st (rerender old w).
Proof.
  unfold settle. rewrite (rerender_st (st w)), rerender_alive.
  rewrite (rerender_st old).
  destruct w as [[on init models err ld] a v r t n ss m c p cs].
  destruct old as [on' init' models' err' ld'].
  unfold video_deps_changed, models_deps_changed. cbn.
  destruct a; [|done]. cbn.
  repeat case_bool_decide; simplify_eq/=; try done.
  all: destruct on, on', init, init'; simplify_eq/=; done.
Qed.

(** A render whose effect dependencies are those of the render before
    runs no effect: only the video surface is committed. *)
Lemma rerender_same_deps old w :
  isVideoOn (st w) = isVideoOn old →
  isVideoInitialized (st w) = isVideoInitialized old →
  let w' := rerender old w in
  st w' = st w ∧ timers w' = timers w ∧ timersCreated w' = timersCreated w ∧
  detectionIntervalRef w' = detectionIntervalRef w ∧
  streams w' = streams w ∧ pending w' = pending w ∧ console w' = console w ∧
  mounted w' = mounted w.
Proof.
  intros Hon Hinit. unfold rerender, video_deps_changed, models_deps_changed.
  rewrite Hon, Hinit.
  rewrite (bool_decide_eq_true_2 (isVideoOn old = isVideoOn old)) by done.
  rewrite (bool_decide_eq_true_2 (isVideoInitialized old = isVideoInitialized old))
    by done.
  destruct w as [s a v r t n ss m c p cs]. cbn.
  destruct (a && _); [|done]. by run_effects.
Qed.

Lemma settle_same_deps old w :
  isVideoOn (st w) = isVideoOn old →
  isVideoInitialized (st w) = isVideoInitialized old →
  let w' := settle old w in
  st w' = st w ∧ timers w' = timers w ∧ timersCreated w' = timersCreated w ∧
  detectionIntervalRef w' = detectionIntervalRef w ∧
  streams w' = streams w ∧ pending w' = pending w ∧ console w' = console w ∧
  mounted w' = mounted w.
Proof.
  intros Hon Hinit. unfold settle.
  destruct (rerender_same_deps old w Hon Hinit) as (H1 & H2 & H3 & H4 & H5 & H6 & H7 & H8).
  destruct (rerender_same_deps (st w) (rerender old w))
    as (G1 & G2 & G3 & G4 & G5 & G6 & G7 & G8); [by rewrite H1..|].
  cbn zeta. by rewrite G1, G2, G3, G4, G5, G6, G7, G8.
Qed.

Lemma handle_keeps_models labels w e :
  areModelsLoaded (st w) = true →
  areModelsLoaded (st (exec (handle labels (st w) e) w)) = true.
Proof.
  intros Hm.
  destruct w as [[on init models err ld] a v r t n ss m c p cs]. cbn in Hm.
  destruct e; run_effects; done.
Qed.

Lemma step_keeps_models labels w e :
  areModelsLoaded (st w) = true → areModelsLoaded (st (step labels w e)) = true.
Proof.
  intros Hm. unfold step. rewrite settle_quiescent, rerender_st.
  pose proof (handle_keeps_models labels w e Hm).
  by destruct (_ && _).
Qed.


Lemma rerender_unchanged old w : st w = old → rerender old w = w.
Proof. intros <-. apply rerender_same. Qed.

Lemma rerender_changed old w :
  alive w = true → st w ≠ old →
  rerender old w =
  exec
    (commit (st w) ;;
     when (video_deps_changed old (st w))
       (cell ← gets effectCell; cleanup cell ;; effect_video (st w)) ;;
     when (models_deps_changed old (st w)) (loadModels (st w)))
    w.
Proof.
  intros Ha Hne. unfold rerender.
  by rewrite Ha, bool_decide_eq_false_2.
Qed.

Lemma shows_video_off r : isVideoOn r = false → shows_video r = false.
Proof. unfold shows_video. intros ->. by rewrite andb_false_r. Qed.













Lemma step_inv labels cam w e :
  inv cam w → (cam = true → keeps_on w e = true) → inv cam (step labels w e).
Proof.
  intros Hw Hk. unfold step, settle.
  destruct (handle_inv labels cam w e Hw Hk) as [H0 F0].
  destruct (rerender_inv cam _ _ H0 F0) as [H1 F1].
  by destruct (rerender_inv cam _ _ H1 F1) as [H2 F2].
Qed.

Lemma mount_inv cam : inv cam mount.
Proof.
  repeat split; cbn; try done.
  - repeat constructor; done.
  - by intros [? [=]].
Qed.

Lemma timer_needs_gallery labels w e :
  timersCreated w < timersCreated (step labels w e) →
  ∃ k images schedule c,
    e = GallerySettles k images schedule ∧
    pending w !! k = Some (Some (AwaitGallery c)).
Proof.
  unfold step. rewrite settle_timersCreated.
  destruct w as [s a v r t n ss m c p cs].
  destruct e; js_unfold; cbn; repeat case_match; simplify_eq/=; try lia.
  all: intros _; eauto 10.
Qed.

Lemma run_inv labels trace : inv false (run labels trace).
Proof.
  unfold run. generalize (mount_inv false). generalize mount.
  induction trace as [|e trace IH]; intros w Hw; [done|].
  simpl. apply IH. by apply step_inv.
Qed.

Lemma run_on_inv labels trace : inv true (run_on labels trace).
Proof.
  unfold run_on. generalize (mount_inv true). generalize mount.
  induction trace as [|e trace IH]; intros w Hw; [done|].
  simpl. apply IH. destruct (keeps_on w e) eqn:Hk; [|done].
  by apply step_inv.
Qed.

(** X20.  In the runs in which the camera, once requested, stays
    requested (the events that would switch it off are left out: a
    click on the toggle while the camera is on, a rejected getUserMedia
    call, the unmount), whatever the order in which the camera becomes
    ready, the models finish loading, galleries get built and timers
    fire: a step that starts a polling timer starts it in a state in
    which both [isVideoInitialized] and [areModelsLoaded] are true. *)
Theorem polling_waits_for_both_flags (labels : list string) (trace : list Event)
  (e : Event) :
let w := run_on labels trace in
timersCreated w < timersCreated (step labels w e) →
isVideoInitialized (st w) = true ∧ areModelsLoaded (st w) = true.
Proof.
intros w Hnew.
destruct (timer_needs_gallery labels w e Hnew) as (k & images & schedule & c & _ & Hk).
destruct (run_on_inv labels trace) as (Htasks & _ & _).
pose proof (Forall_lookup_1 _ _ _ _ Htasks Hk) as [Hm Hi].
split; [by apply Hi | done].
Qed.

Lemma polling_waits_witness :
isVideoInitialized (st (run_on GallerySpec.two_labels camera_ready)) = true ∧
areModelsLoaded (st (run_on GallerySpec.two_labels camera_ready)) = true.
Proof.
apply (polling_waits_for_both_flags GallerySpec.two_labels camera_ready
         (gallery_built 5)).
vm_compute. lia.
Defined.

(** C1.  The flags are tested before the gallery is awaited and not
    again after it: the camera is switched off while the gallery build
    of slot 5 is running ([isVideoInitialized] false, no video surface,
    no timer), and when the build finishes the step starts polling
    timer 0 all the same. *)
Theorem polling_starts_after_toggle_off :
let w := run GallerySpec.two_labels off_during_build in
let w' := step GallerySpec.two_labels w (gallery_built 5) in
(isVideoOn (st w) = false ∧ isVideoInitialized (st w) = false ∧
 video w = None ∧ timersCreated w = 0) ∧
(timersCreated w' = 1 ∧ timers w' = {[0]} ∧
 detectionIntervalRef w' = Some 0 ∧
 isVideoOn (st w') = false ∧ isVideoInitialized (st w') = false).
Proof. vm_compute. done. Qed.

Lemma timer_needs_models labels trace e :
let w := run labels trace in
timersCreated w < timersCreated (step labels w e) →
areModelsLoaded (st w) = true.
Proof.
intros w Hnew.
destruct (timer_needs_gallery labels w e Hnew) as (k & images & schedule & c & _ & Hk).
destruct (run_inv labels trace) as (Htasks & _ & _).
by pose proof (Forall_lookup_1 _ _ _ _ Htasks Hk) as [Hm _].
Qed.

(** C5 (amended).  [loadModels] sets [areModelsLoaded] to true exactly
    when all three weight loads succeed.  When one fails it sets the
    error to the non-empty "Failed to load models: ..." and leaves
    [areModelsLoaded] as it was, starting nothing; no step ever resets
    the flag.  The Retry button clears the error and starts a new load
    (so does the second effect whenever [isVideoOn] or
    [isVideoInitialized] changes).  In every run a polling timer is
    started only in a state in which [areModelsLoaded] is true. *)
Theorem loadModels_sets_modelsReady (labels : list string) :
(∀ r a b c w,
   Promise_all [a; b; c] = None →
   areModelsLoaded (st (exec (loadModels_resume r [a; b; c]) w)) = true) ∧
(∀ r a b c w,
   Promise_all [a; b; c] ≠ None →
   let w' := exec (loadModels_resume r [a; b; c]) w in
   areModelsLoaded (st w') = areModelsLoaded (st w) ∧
   (∃ m, error (st w') = Some ("Failed to load models: " +:+ m)) ∧
   truthy (error (st w')) = true ∧
   timersCreated w' = timersCreated w ∧
   pending w' = pending w) ∧
(∀ w e,
   areModelsLoaded (st w) = true →
   areModelsLoaded (st (step labels w e)) = true) ∧
(∀ r w,
   let w' := exec (onRetry r) w in
   error (st w') = None ∧ pending w' = pending w ++ [Some (AwaitModels r)]) ∧
(∀ trace e,
   let w := run labels trace in
   timersCreated w < timersCreated (step labels w e) →
   areModelsLoaded (st w) = true).
Proof.
split; [|split; [|split; [|split]]].
- intros r a b c w H. destruct w as [s al v rf t n ss m ce p cs].
  destruct a, b, c; try done.
  js_unfold; cbn. repeat case_match; simplify_eq/=; done.
- intros r a b c w H. destruct w as [s al v rf t n ss m ce p cs].
  destruct a as [ma|], b as [mb|], c as [mc|]; try done; cbn.
  all: repeat split; eauto.
- apply step_keeps_models.
- intros r w. destruct w as [s al v rf t n ss m ce p cs]. by cbn.
- apply timer_needs_models.
Qed.

Lemma loadModels_sets_modelsReady_witness :
areModelsLoaded (st (run GallerySpec.two_labels camera_ready)) = true ∧
areModelsLoaded
  (st (exec (loadModels_resume initial [None; None; None]) mount)) = true.
Proof.
destruct (loadModels_sets_modelsReady GallerySpec.two_labels)
  as (Hok & _ & _ & _ & Htimer).
split.
- apply (Htimer camera_ready (gallery_built 5)). vm_compute. lia.
- apply Hok. reflexivity.
Defined.

Lemma loadModels_counterexample :
(* a reload fails after the models were loaded: the flag stays up *)
(let w := run [] [models_loaded; ClickToggle;
                  ModelsSettle 3 None (Some "Failed to fetch") None] in
 error (st w) = Some "Failed to load models: Failed to fetch" ∧
 areModelsLoaded (st w) = true) ∧
(* the first load fails, the load started by the toggle succeeds:
   the flag goes up and nobody pressed Retry *)
(let w1 := run [] [ClickToggle; ModelsSettle 0 (Some "Failed to fetch") None None] in
 let w2 := step [] w1 (ModelsSettle 3 None None None) in
 error (st w1) = Some "Failed to load models: Failed to fetch" ∧
 areModelsLoaded (st w1) = false ∧
 areModelsLoaded (st w2) = true).
Proof. vm_compute. done. Qed.




(** C6.  A tick of an active timer whose detection or drawing throws:
    the exception is caught and logged, the timers, the timer ref and
    the whole React state are unchanged, the timer is still active and
    its next tick runs the interval callback again.  The same holds for
    the interval callback of part_000. *)
Theorem frame_failure_keeps_polling (labels : list string) :
(∀ w timer m,
   timer ∈ timers w →
   let w' := step labels w (Tick timer (FrameFailed m)) in
   (onInterval (FrameFailed m) w).1 = Normal () ∧
   timers w' = timers w ∧
   timer ∈ timers w' ∧
   detectionIntervalRef w' = detectionIntervalRef w ∧
   st w' = st w ∧
   console w' =
     console w ++
     (if video w is Some _ then [console_error "Frame processing error:" m] else []) ∧
   ∀ frame, step labels w' (Tick timer frame) = exec (onInterval frame) w') ∧
(∀ r w m,
   let w' := exec (Legacy.onInterval r (FrameFailed m)) w in
   (Legacy.onInterval r (FrameFailed m) w).1 = Normal () ∧
   Legacy.timers w' = Legacy.timers w ∧
   Legacy.detectionIntervalRef w' = Legacy.detectionIntervalRef w ∧
   Legacy.st w' = Legacy.st w ∧
   Legacy.console w' =
     Legacy.console w ++
     (if Legacy.isVideoInitialized r
      then [console_error "Error detecting faces:" m] else [])).
Proof.
split.
- intros w timer m Hin.
  assert (Hstep : ∀ frame w0, timer ∈ timers w0 → st (exec (onInterval frame) w0) = st w0 →
            step labels w0 (Tick timer frame) = exec (onInterval frame) w0).
  { intros frame w0 Hin0 Hst. unfold step, handle.
    replace (exec (active ← gets timers; when (bool_decide (timer ∈ active)) (onInterval frame)) w0)
      with (exec (onInterval frame) w0).
    - rewrite <- Hst. apply settle_same.
    - unfold exec, mbind, js_bind, Js.bind, gets, when. cbn.
      by rewrite bool_decide_eq_true_2. }
  assert (Hbody : ∀ frame w0, st (exec (onInterval frame) w0) = st w0
                              ∧ timers (exec (onInterval frame) w0) = timers w0).
  { intros frame w0. destruct w0 as [s al v rf t n ss mo ce p cs].
    destruct v, frame; by cbn. }
  cbn zeta. rewrite (Hstep _ _ Hin (proj1 (Hbody _ _))).
  destruct w as [s al v rf t n ss mo ce p cs].
  destruct v; cbn; repeat split; try done.
  all: try (intros frame; apply Hstep;
            [rewrite (proj2 (Hbody _ _)); exact Hin | apply Hbody]).
  all: by rewrite app_nil_r.
- intros r w m. destruct w as [s v rf t n ss cs].
  destruct r as [on [] ml]; cbn; repeat split; try done.
  by rewrite app_nil_r.
Qed.

Lemma frame_failure_witness :
let w := run GallerySpec.two_labels (camera_ready ++ [gallery_built 5]) in
let w' := step GallerySpec.two_labels w (Tick 0 (FrameFailed "detect failed")) in
(onInterval (FrameFailed "detect failed") w).1 = Normal () ∧
timers w' = timers w ∧
0 ∈ timers w' ∧
detectionIntervalRef w' = detectionIntervalRef w ∧
st w' = st w ∧
console w' =
  console w ++
  (if video w is Some _ then [console_error "Frame processing error:" "detect failed"] else []) ∧
∀ frame, step GallerySpec.two_labels w' (Tick 0 frame) = exec (onInterval frame) w'.
Proof.
destruct (frame_failure_keeps_polling GallerySpec.two_labels) as [Hcurrent _].
apply (Hcurrent (run GallerySpec.two_labels (camera_ready ++ [gallery_built 5]))
         0 "detect failed").
vm_compute. set_solver.
Defined.

(** C10.  When the gallery build that [startFaceDetection] waits for
    returns an empty list, the step starts no timer, sets the error to
    the non-empty "Face detection failed: No face descriptors found",
    and leaves [isVideoInitialized], [areModelsLoaded] and [isVideoOn]
    as they were. *)
Theorem empty_gallery_starts_no_polling (labels : list string) (w : World)
  (k : nat) (c : StartCaller) (images : Gallery.Images) (schedule : list nat) :
pending w !! k = Some (Some (AwaitGallery c)) →
Gallery.getLabeledFaceDescriptions labels images Gallery.Current schedule
= Some (Normal []) →
let w' := step labels w (GallerySettles k images schedule) in
timers w' = timers w ∧
timersCreated w' = timersCreated w ∧
detectionIntervalRef w' = detectionIntervalRef w ∧
error (st w') = Some "Face detection failed: No face descriptors found" ∧
truthy (error (st w')) = true ∧
isVideoInitialized (st w') = isVideoInitialized (st w) ∧
areModelsLoaded (st w') = areModelsLoaded (st w) ∧
isVideoOn (st w') = isVideoOn (st w).
Proof.
intros Hk Hg. unfold Gallery.getLabeledFaceDescriptions in Hg.
cbn zeta. unfold step.
set (w0 := exec (handle labels (st w) (GallerySettles k images schedule)) w).
assert (timers w0 = timers w ∧ timersCreated w0 = timersCreated w ∧
        detectionIntervalRef w0 = detectionIntervalRef w ∧
        error (st w0) = Some "Face detection failed: No face descriptors found" ∧
        isVideoInitialized (st w0) = isVideoInitialized (st w) ∧
        areModelsLoaded (st w0) = areModelsLoaded (st w) ∧
        isVideoOn (st w0) = isVideoOn (st w))
  as (Ht & Hn & Hr & He & Hi & Hm & Hon).
{ subst w0. destruct w as [s al v rf t n ss mo ce p cs]. cbn in Hk.
  unfold handle, exec, mbind, js_bind, Js.bind, gets. cbn. rewrite Hk, Hg.
  destruct c; run_effects; done. }
destruct (settle_same_deps (st w) w0 Hon Hi) as (Gs & Gt & Gn & Gr & _).
rewrite Gs, Gt, Gn, Gr, He. done.
Qed.

Lemma empty_gallery_witness :
let w := run GallerySpec.two_labels camera_ready in
let w' := step GallerySpec.two_labels w
            (GallerySettles 5 (λ _ _, Gallery.NoFace) [0; 0; 1; 1]) in
timers w' = timers w ∧
timersCreated w' = timersCreated w ∧
detectionIntervalRef w' = detectionIntervalRef w ∧
error (st w') = Some "Face detection failed: No face descriptors found" ∧
truthy (error (st w')) = true ∧
isVideoInitialized (st w') = isVideoInitialized (st w) ∧
areModelsLoaded (st w') = areModelsLoaded (st w) ∧
isVideoOn (st w') = isVideoOn (st w).
Proof.
apply (empty_gallery_starts_no_polling GallerySpec.two_labels
         (run GallerySpec.two_labels camera_ready) 5 FromLoadModels);
  vm_compute; reflexivity.
Defined.

(** C2, at its failing input.  The camera is switched off and on again
    while the first gallery build is still running; when both builds
    have finished two interval timers are active, and the ref names
    only the second: switching off clears that one and timer 0 keeps
    firing. *)
Theorem two_timers_after_off_and_on :
let w := run GallerySpec.two_labels off_and_on_during_build in
isVideoOn (st w) = true ∧
timers w = {[0; 1]} ∧
size (timers w) = 2 ∧
detectionIntervalRef w = Some 1 ∧
(* switching off now clears timer 1 only *)
timers (step GallerySpec.two_labels w ClickToggle) = {[0]} ∧
isVideoOn (st (step GallerySpec.two_labels w ClickToggle)) = false.
Proof. vm_compute. done. Qed.

(** C7, at its failing input.  Camera on, both getUserMedia calls
    granted, camera off: the stream of [toggleVideo]'s call was replaced
    on the video surface by the stream of the effect's call and is
    still live after the toggle-off.  (The cleanup of part_000 stops
    no track at all.) *)
Theorem stream_leaks_after_on_then_off :
let w := run GallerySpec.two_labels on_then_off in
isVideoOn (st w) = false ∧
attached w = None ∧
streams w = [[live]; [ended]] ∧
live_streams w = [[live]] ∧
Legacy.streams (exec Legacy.cleanup legacy_polling) = [[live]].
Proof. vm_compute. done. Qed.

End AppFacts.

(** ** More about the gallery *)

Section MoreGalleryFacts.
Import Gallery GallerySpec.

Lemma bind_all_nil {A B} (f : A → list B) (l : list A) :
  Forall (λ x, f x = []) l → l ≫= f = [].
Proof. induction 1 as [|x l Hx _ IH]; [done|]. csimpl. by rewrite Hx, IH. Qed.

Lemma run_snoc labels images rev schedule p :
  run labels images rev (schedule ++ [p]) =
  resume labels images rev p (run labels images rev schedule).
Proof. unfold run. by rewrite foldl_app. Qed.

Lemma resume_agree labels images p b :
  (∀ l k, l ∈ labels → k < length labels → is_face (images l k) = true) →
  inv_Current labels images b →
  resume labels images Earlier p b = resume labels images Current p b.
Proof.
  intros Hfaces (Htasks & _). unfold resume.
  destruct (tasks b !! p) as [t|] eqn:Ht; [|done].
  destruct (status t) eqn:Hst; try done.
  destruct (Forall2_lookup_r _ _ _ _ _ Htasks Ht) as (l & Hl & Hlab & _ & _ & Hi).
  rewrite Hst in Hi.
  assert (Hface : is_face (images (label t) (i t)) = true).
  { apply Hfaces; [|done]. rewrite Hlab. by eapply list_elem_of_lookup_2. }
  unfold iteration, body_Earlier, body_Current.
  by destruct (images (label t) (i t)).
Qed.

(** X11.  When every image the loops ask for shows a face, the two
    revisions of [getLabeledFaceDescriptions] do the same thing step by
    step, whatever the order in which the labels' tasks run: same
    tasks, same shared array, same result, and nothing on the console. *)
Theorem revisions_agree_on_faces (labels : list string) (images : Images)
  (schedule : list nat) :
  (∀ l k, l ∈ labels → k < length labels → is_face (images l k) = true) →
  run labels images Earlier schedule = run labels images Current schedule ∧
  getLabeledFaceDescriptions labels images Earlier schedule =
  getLabeledFaceDescriptions labels images Current schedule ∧
  console (run labels images Earlier schedule) = [].
Proof.
  intros Hfaces.
  assert (Hrun : run labels images Earlier schedule
                 = run labels images Current schedule).
  { induction schedule as [|p schedule IH] using rev_ind; [done|].
    rewrite !run_snoc, IH. apply resume_agree; [done|]. apply inv_Current_run. }
  split; [done|]. split; [unfold getLabeledFaceDescriptions; by rewrite Hrun|].
  rewrite Hrun.
  destruct (inv_Current_run labels images schedule) as (Htasks & _ & Hconsole & _).
  apply Permutation_nil_r. rewrite Hconsole.
  replace (tasks (run labels images Current schedule) ≫= warnings_so_far images)
    with (@nil LogEntry); [done|]. symmetry.
  apply bind_all_nil, Forall_forall. intros t Ht.
  apply list_elem_of_lookup in Ht as [p Hp].
  destruct (Forall2_lookup_r _ _ _ _ _ Htasks Hp) as (l & Hl & Hlab & _ & _ & Hi).
  unfold warnings_so_far. apply bind_all_nil, Forall_forall. intros k Hk.
  apply elem_of_seq in Hk. unfold image_warning.
  assert (Hface : is_face (images (label t) k) = true).
  { apply Hfaces; [rewrite Hlab; by eapply list_elem_of_lookup_2|].
    destruct (status t); [lia|lia|done]. }
  by destruct (images (label t) k).
Qed.

Lemma revisions_agree_witness :
  getLabeledFaceDescriptions two_labels (λ _ _, Face 3) Earlier [0; 1; 1; 0] =
  getLabeledFaceDescriptions two_labels (λ _ _, Face 3) Current [0; 1; 1; 0].
Proof.
  apply (revisions_agree_on_faces two_labels (λ _ _, Face 3) [0; 1; 1; 0]).
  intros l k _ _. reflexivity.
Defined.

Lemma faces_length images l n : (length (faces images l n) ≤ n)%nat.
Proof.
  unfold faces. induction n as [|n IH]; [done|].
  rewrite seq_S_end, bind_app, length_app. csimpl.
  destruct (images l n); simpl; lia.
Qed.

Lemma expected_gallery_entry labels images x :
  x ∈ expected_gallery labels images →
  lfd_label x ∈ labels ∧
  lfd_descriptors x = faces images (lfd_label x) (length labels) ∧
  lfd_descriptors x ≠ [].
Proof.
  unfold expected_gallery. intros Hx.
  apply list_elem_of_bind in Hx as (l & Hx & Hl).
  unfold to_push in Hx. case_bool_decide as Hlen; [|by apply elem_of_nil in Hx].
  apply list_elem_of_singleton in Hx as ->. simpl.
  repeat split; [done|]. intros Hnil. rewrite Hnil in Hlen. simpl in Hlen. lia.
Qed.

Lemma expected_gallery_labels labels images :
  lfd_label <$> expected_gallery labels images
  = filter (λ l, faces images l (length labels) ≠ []) labels.
Proof.
  unfold expected_gallery. generalize (length labels) as n. intros n.
  induction labels as [|l ls IH]; [done|].
  csimpl. rewrite fmap_app, IH, filter_cons. unfold to_push.
  case_decide as Hne.
  - rewrite bool_decide_eq_true_2; [done|].
    destruct (faces images l n); [done|simpl; lia].
  - by destruct (faces images l n).
Qed.

(** X12.  What a gallery of the current revision holds: every entry
    belongs to a label of the list and carries the descriptors of that
    label's faces in image order, at least one and at most as many as
    there are labels; the labels of the entries are, up to order, the
    labels that have a face, each as often as it is in the list (so no
    label twice when the list has none twice). *)
Theorem gallery_entries (labels : list string) (images : Images)
  (schedule : list nat) (g : list LabeledFaceDescriptors) :
  getLabeledFaceDescriptions labels images Current schedule = Some (Normal g) →
  (∀ x, x ∈ g →
     lfd_label x ∈ labels ∧
     lfd_descriptors x = faces images (lfd_label x) (length labels) ∧
     (0 < length (lfd_descriptors x) ≤ length labels)%nat) ∧
  lfd_label <$> g
    ≡ₚ filter (λ l, faces images l (length labels) ≠ []) labels ∧
  (NoDup labels → NoDup (lfd_label <$> g)).
Proof.
  intros Hg. destruct (Current_result labels images schedule g Hg) as (Hperm & _).
  assert (Hlabels : lfd_label <$> g
            ≡ₚ filter (λ l, faces images l (length labels) ≠ []) labels).
  { by rewrite Hperm, expected_gallery_labels. }
  split; [|split; [done|]].
  - intros x Hx. rewrite Hperm in Hx.
    destruct (expected_gallery_entry labels images x Hx) as (Hl & Hd & Hne).
    repeat split; [done|done| |].
    + destruct (lfd_descriptors x); [done|simpl; lia].
    + rewrite Hd. apply faces_length.
  - intros Hnd. rewrite Hlabels. by apply NoDup_filter.
Qed.

Lemma gallery_entries_witness :
  lfd_label <$> [ {| lfd_label := "ann"; lfd_descriptors := [7] |} ]
    ≡ₚ filter (λ l, faces two_images l (length two_labels) ≠ []) two_labels.
Proof.
  destruct (gallery_entries two_labels two_images [1; 0; 1; 0]
              [ {| lfd_label := "ann"; lfd_descriptors := [7] |} ])
    as (_ & H & _); [reflexivity|exact H].
Defined.

Lemma run_no_labels images rev schedule :
  Gallery.run [] images rev schedule = Gallery.start [].
Proof.
  induction schedule as [|p schedule IH] using rev_ind; [done|].
  unfold Gallery.run in *. by rewrite foldl_app, IH.
Qed.

(** X13.  With an empty label list there is nothing to wait for: the
    build comes back at once with the empty gallery, in both revisions,
    whatever the images and the schedule; no image is asked for and
    nothing is logged. *)
Theorem empty_label_list (images : Images) (rev : Revision) (schedule : list nat) :
  getLabeledFaceDescriptions [] images rev schedule = Some (Normal []) ∧
  run [] images rev schedule = start [].
Proof.
  assert (Hrun : run [] images rev schedule = start []).
  { induction schedule as [|p schedule IH] using rev_ind; [done|].
    by rewrite run_snoc, IH. }
  split; [|done]. unfold getLabeledFaceDescriptions. by rewrite Hrun.
Qed.

End MoreGalleryFacts.

(** ** More about the current revision of the component *)

Section MoreAppFacts.
Import App AppSpec AppInvariants.
#[local] Set Warnings "-clear-no-such-hyp".

Ltac effects :=
  js_unfold; cbn; repeat (case_match; unfold Js.ret in *; simplify_eq/=).

(** X1.  [stopVideo] is idempotent: a second call right after the first
    changes nothing. *)
Theorem stopVideo_idempotent (w : World) :
  exec stopVideo (exec stopVideo w) = exec stopVideo w.
Proof.
  destruct w as [s al v rf t n ss mo ce p cs].
  destruct v as [[[x|] h l]|], rf as [id|]; js_unfold; cbn; try done.
  all: assert (E : t ∖ {[id]} ∖ {[id]} = t ∖ {[id]}) by set_solver.
  all: by rewrite E.
Qed.

(** X2.  A granted getUserMedia call adds exactly one stream, live, and
    touches no other stream, no timer and no state cell.  With a video
    element it attaches the new stream, installs the loadedmetadata
    handler and keeps its caller waiting; the stream attached before,
    if any, is replaced without being stopped.  Without a video element
    ([if (!videoRef.current) return]) the new stream is attached
    nowhere and the caller is released at once. *)
Theorem granted_stream_is_added (c : InitCaller) (w : World) :
  let res := initializeVideo_resume c Granted w in
  let w' := res.2 in
  streams w' = streams w ++ [[live]] ∧
  st w' = st w ∧
  timers w' = timers w ∧
  detectionIntervalRef w' = detectionIntervalRef w ∧
  pending w' = pending w ∧
  match video w with
  | Some el =>
      res.1 = Normal true ∧
      video w' = Some {| srcObject := Some (length (streams w));
                         onloadedmetadata := Some c; loading := true |}
  | None => res.1 = Normal false ∧ video w' = None
  end.
Proof.
  destruct w as [s al v rf t n ss mo ce p cs].
  destruct v as [el|]; cbn; done.
Qed.

(** X3.  A gallery build that comes back with at least one entry
    starts exactly one new timer and stores its id in the ref; the timer
    the ref named before is not cleared, and the error cell and the
    three flags stay as they are. *)
Theorem gallery_starts_one_timer (labels : list string) (w : World)
  (k : nat) (c : StartCaller) (images : Gallery.Images) (schedule : list nat)
  (g : list Gallery.LabeledFaceDescriptors) :
  pending w !! k = Some (Some (AwaitGallery c)) →
  Gallery.getLabeledFaceDescriptions labels images Gallery.Current schedule
  = Some (Normal g) →
  g ≠ [] →
  let w' := step labels w (GallerySettles k images schedule) in
  timers w' = {[timersCreated w]} ∪ timers w ∧
  timersCreated w' = S (timersCreated w) ∧
  detectionIntervalRef w' = Some (timersCreated w) ∧
  error (st w') = error (st w) ∧
  isVideoOn (st w') = isVideoOn (st w) ∧
  isVideoInitialized (st w') = isVideoInitialized (st w) ∧
  areModelsLoaded (st w') = areModelsLoaded (st w).
Proof.
  intros Hk Hg Hne. unfold Gallery.getLabeledFaceDescriptions in Hg.
  cbn zeta. unfold step.
  set (w0 := exec (handle labels (st w) (GallerySettles k images schedule)) w).
  assert (timers w0 = {[timersCreated w]} ∪ timers w ∧
          timersCreated w0 = S (timersCreated w) ∧
          detectionIntervalRef w0 = Some (timersCreated w) ∧
          error (st w0) = error (st w) ∧
          isVideoOn (st w0) = isVideoOn (st w) ∧
          isVideoInitialized (st w0) = isVideoInitialized (st w) ∧
          areModelsLoaded (st w0) = areModelsLoaded (st w))
    as (Ht & Hn & Hr & He & Hon & Hi & Hm).
  { subst w0. destruct w as [s al v rf t n ss mo ce p cs]. cbn in Hk.
    unfold handle, exec, mbind, js_bind, Js.bind, gets. cbn. rewrite Hk, Hg.
    destruct g as [|x g]; [done|].
    destruct c; effects; done. }
  destruct (settle_same_deps (st w) w0 Hon Hi) as (Gs & Gt & Gn & Gr & _).
  by rewrite Gs, Gt, Gn, Gr.
Qed.

Lemma gallery_starts_one_timer_witness :
  let w := run GallerySpec.two_labels camera_ready in
  let w' := step GallerySpec.two_labels w (gallery_built 5) in
  timers w' = {[timersCreated w]} ∪ timers w ∧
  timersCreated w' = S (timersCreated w) ∧
  detectionIntervalRef w' = Some (timersCreated w) ∧
  error (st w') = error (st w) ∧
  isVideoOn (st w') = isVideoOn (st w) ∧
  isVideoInitialized (st w') = isVideoInitialized (st w) ∧
  areModelsLoaded (st w') = areModelsLoaded (st w).
Proof.
  apply (gallery_starts_one_timer GallerySpec.two_labels
           (run GallerySpec.two_labels camera_ready) 5 FromLoadModels
           GallerySpec.two_images [0; 0; 1; 1]
           [ {| Gallery.lfd_label := "ann"; Gallery.lfd_descriptors := [7] |} ]);
    [reflexivity | reflexivity | discriminate].
Defined.

Lemma rerender_no_video old w :
  isVideoOn (st w) = false → video w = None → video (rerender old w) = None.
Proof.
  intros Hoff Hv.
  destruct w as [[on init models err ld] a v r t n ss m c p cs].
  cbn in Hoff, Hv. subst on v.
  unfold rerender. cbn [st alive]. destruct (a && _); [|done].
  destruct (video_deps_changed _ _), (models_deps_changed _ _).
  all: effects; try done.
  all: match goal with H : shows_video _ = true |- _ =>
         unfold shows_video in H; cbn in H; by rewrite andb_false_r in H end.
Qed.

(** What one render pass suspends: the effect's getUserMedia call when
    [isVideoOn] has changed to true, and a model load when one of the
    dependencies of [loadModels] has changed. *)
Lemma rerender_pending old w :
  pending (rerender old w) =
  pending w ++
  if alive w && negb (bool_decide (st w = old)) then
    (if video_deps_changed old (st w) && isVideoOn (st w)
     then [Some (AwaitGetUserMedia (ByEffect (length (mounted w))))] else []) ++
    (if models_deps_changed old (st w) then [Some (AwaitModels (st w))] else [])
  else [].
Proof.
  destruct w as [[on init models err ld] a v r t n ss m c p cs].
  unfold rerender. cbn [st alive pending mounted isVideoOn].
  destruct (a && _); [|by rewrite app_nil_r].
  destruct (video_deps_changed _ _), (models_deps_changed _ _), on.
  all: effects; rewrite ?length_insert, <- ?app_assoc, ?app_nil_r; done.
Qed.

(** X4.  Switching the camera on asks for the camera twice: after the
    click two getUserMedia calls are pending, the one [toggleVideo]
    awaits and the one of the effect on [isVideoOn], and a new model
    load has been started as well. *)
Theorem toggle_on_asks_twice (labels : list string) (w : World) :
  alive w = true →
  truthy (error (st w)) = false →
  isVideoOn (st w) = false →
  isVideoInitialized (st w) = false →
  let w' := step labels w ClickToggle in
  isVideoOn (st w') = true ∧
  ∃ r,
    pending w' =
      pending w ++
      [ Some (AwaitGetUserMedia (ByToggle (st w)));
        Some (AwaitGetUserMedia (ByEffect (length (mounted w))));
        Some (AwaitModels r) ] ∧
    isVideoOn r = true.
Proof.
  intros Ha He Hoff Hinit. cbn zeta. unfold step, settle.
  set (w0 := exec _ w).
  assert (st w0 = {| isVideoOn := true; isVideoInitialized := false;
                     areModelsLoaded := areModelsLoaded (st w);
                     error := error (st w); isLoading := isLoading (st w) |} ∧
          pending w0 = pending w ++ [Some (AwaitGetUserMedia (ByToggle (st w)))] ∧
          mounted w0 = mounted w ∧ alive w0 = true) as (Hst & Hp & Hm & Hal).
  { subst w0. destruct w as [[on init models err ld] a v rf t n ss m c p cs].
    cbn in Ha, He, Hoff, Hinit. subst a on init.
    unfold handle, shows_toggle. cbn. rewrite He. by cbn. }
  rewrite rerender_st, !rerender_pending, !rerender_alive, rerender_st.
  rewrite Hst, Hp, Hm, Hal.
  destruct (st w) as [on init models err ld]. cbn in He, Hoff, Hinit. subst on init.
  unfold video_deps_changed, models_deps_changed.
  destruct err as [[|ch tl]|]; [|done|].
  all: destruct models, ld; cbn; rewrite <- !app_assoc; cbn; eauto.
Qed.

Lemma toggle_on_asks_twice_witness :
  let w := run [] [models_loaded] in
  let w' := step [] w ClickToggle in
  isVideoOn (st w') = true ∧
  ∃ r,
    pending w' =
      pending w ++
      [ Some (AwaitGetUserMedia (ByToggle (st w)));
        Some (AwaitGetUserMedia (ByEffect (length (mounted w))));
        Some (AwaitModels r) ] ∧
    isVideoOn r = true.
Proof.
  apply (toggle_on_asks_twice [] (run [] [models_loaded])); reflexivity.
Defined.

(** The render pass after [isVideoOn] has gone from true to false. *)
Lemma rerender_switched_off old w :
  alive w = true → isVideoOn old = true → isVideoOn (st w) = false →
  let w' := rerender old w in
  video w' = None ∧
  streams w' = streams w ∧
  timers w' = cleared (detectionIntervalRef w) (timers w) ∧
  detectionIntervalRef w' = detectionIntervalRef w ∧
  isVideoOn (st w') = false ∧
  isVideoInitialized (st w') = false ∧
  error (st w') = error (st w) ∧
  areModelsLoaded (st w') = areModelsLoaded (st w) ∧
  alive w' = true.
Proof.
  intros Ha Hold Hoff.
  destruct w as [[on init models err ld] a v r t n ss m c p cs].
  destruct old as [on' init' models' err' ld'].
  cbn in Ha, Hold, Hoff. subst a on on'.
  cbn zeta. rewrite rerender_changed by (done || by intros [=]).
  unfold commit. rewrite shows_video_off by done.
  unfold video_deps_changed, models_deps_changed. cbn.
  destruct r as [id|]; js_unfold; cbn; repeat split; try done.
  all: set_solver.
Qed.

(** X5.  Switching the camera off: after the click [isVideoOn] and
    [isVideoInitialized] are false, the video element is gone, the
    tracks of the stream that was attached to it are stopped (no other
    stream is touched), the timer the ref names is cleared (no other
    timer is), and the error and [areModelsLoaded] are as before. *)
Theorem toggle_off_releases (labels : list string) (w : World) :
  alive w = true →
  truthy (error (st w)) = false →
  isVideoOn (st w) = true →
  let w' := step labels w ClickToggle in
  isVideoOn (st w') = false ∧
  isVideoInitialized (st w') = false ∧
  video w' = None ∧
  timers w' = cleared (detectionIntervalRef w) (timers w) ∧
  streams w' =
    match attached w with
    | Some s => alter (fmap (λ _, ended)) s (streams w)
    | None => streams w
    end ∧
  error (st w') = error (st w) ∧
  areModelsLoaded (st w') = areModelsLoaded (st w).
Proof.
  intros Ha He Hon. cbn zeta. unfold step, settle.
  set (w0 := exec _ w).
  assert (alive w0 = true ∧ isVideoOn (st w0) = false ∧
          isVideoInitialized (st w0) = false ∧
          error (st w0) = error (st w) ∧
          areModelsLoaded (st w0) = areModelsLoaded (st w) ∧
          detectionIntervalRef w0 = detectionIntervalRef w ∧
          timers w0 = cleared (detectionIntervalRef w) (timers w) ∧
          streams w0 =
            match attached w with
            | Some s => alter (fmap (λ _, ended)) s (streams w)
            | None => streams w
            end)
    as (Hal & Hoff & Hini & Herr & Hmod & Href & Htim & Hstr).
  { subst w0. destruct w as [[on init models err ld] a v rf t n ss m c p cs].
    cbn in Ha, He, Hon. subst a on.
    unfold handle, shows_toggle. cbn. rewrite He.
    destruct v as [[[x|] h l]|], rf as [id|]; js_unfold; cbn; done. }
  destruct (rerender_switched_off (st w) w0 Hal Hon Hoff)
    as (Hv1 & Hs1 & Ht1 & Hr1 & Hoff1 & Hi1 & He1 & Hm1 & Ha1).
  set (w1 := rerender (st w) w0) in *.
  destruct (rerender_same_deps (st w0) w1) as (Gs & Gt & _ & _ & Gstr & _);
    [congruence..|].
  pose proof (rerender_no_video (st w0) w1 Hoff1 Hv1) as Hv2.
  rewrite Gs, Gt, Gstr, Hv2, Hoff1, Hi1, He1, Hm1, Ht1, Hs1, Href, Htim.
  repeat split; try done.
  destruct (detectionIntervalRef w); cbn; set_solver.
Qed.

Lemma toggle_off_witness :
  let w := run GallerySpec.two_labels (camera_ready ++ [gallery_built 5]) in
  let w' := step GallerySpec.two_labels w ClickToggle in
  isVideoOn (st w') = false ∧
  isVideoInitialized (st w') = false ∧
  video w' = None ∧
  timers w' = cleared (detectionIntervalRef w) (timers w) ∧
  streams w' =
    match attached w with
    | Some s => alter (fmap (λ _, ended)) s (streams w)
    | None => streams w
    end ∧
  error (st w') = error (st w) ∧
  areModelsLoaded (st w') = areModelsLoaded (st w).
Proof.
  apply (toggle_off_releases GallerySpec.two_labels
           (run GallerySpec.two_labels (camera_ready ++ [gallery_built 5])));
    reflexivity.
Defined.

Lemma is_Some_Some_iff {A} (x : A) : is_Some (Some x) ↔ True.
Proof. split; [done|]. intros _. by exists x. Qed.

Ltac learn_pending Hp :=
  repeat match goal with
  | H : ?p !! ?k = Some ?t |- _ =>
      lazymatch goal with
      | _ : not_from_toggle t |- _ => fail
      | _ => pose proof (Forall_lookup_1 _ _ _ _ Hp H)
      end
  end.

Ltac facts :=
  unfold coherent, settling, not_from_toggle, toggle_not_ready,
    shows_video, shows_toggle, shows_retry in *;
  cbn in *;
  repeat match goal with
  | H : is_Some None |- _ => destruct H as [? [=]]
  | H : _ && _ = true |- _ => apply andb_true_iff in H; destruct H
  | H : _ && _ = false |- _ => apply andb_false_iff in H; destruct H
  | H : _ || _ = false |- _ => apply orb_false_iff in H; destruct H
  | H : _ || _ = true |- _ => apply orb_true_iff in H; destruct H
  | H : negb _ = true |- _ => apply negb_true_iff in H
  | H : negb _ = false |- _ => apply negb_false_iff in H
  | H : bool_decide _ = true |- _ => apply bool_decide_eq_true_1 in H
  | H : bool_decide _ = false |- _ => apply bool_decide_eq_false_1 in H
  | H : ?b ≠ _ |- _ => is_var b; destruct b; try done
  | H : _ ≠ ?b |- _ => is_var b; destruct b; try done
  end;
  simplify_eq/=;
  repeat match goal with
  | H : context [is_Some (Some _)] |- _ => setoid_rewrite is_Some_Some_iff in H
  | H : ?b = true → false = true |- _ =>
      is_var b; destruct b; [by specialize (H eq_refl)|clear H]
  end;
  try (intuition (first [ discriminate | congruence | eauto ])).

Ltac close Hp Hh :=
  try match goal with
      | H : onloadedmetadata _ = _ |- _ =>
          let fired := fresh "Hfired" in
          pose proof Hh as fired; rewrite H in fired
      end;
  repeat split;
  first
    [ solve
        [ repeat first
            [ apply Forall_app; split
            | apply Forall_insert
            | apply Forall_cons; split
            | apply Forall_nil ];
          first [ exact Hp | facts ] ]
    | solve [ facts ] ].

Lemma handle_settling labels w e :
  coherent w → settling (st w) (exec (handle labels (st w) e) w).
Proof.
  intros (Hp & Hh & Hv & Hd & Hi).
  destruct w as [[on init models err ld] a v r t n ss m c p cs]. cbn in *.
  destruct e; js_unfold; cbn.
  all: repeat case_match; simplify_eq/=; learn_pending Hp.
  all: close Hp Hh.
Qed.

Lemma rerender_settling old w :
  settling old w →
  settling (st w) (rerender old w) ∧
  isVideoOn (st (rerender old w)) = isVideoOn (st w).
Proof.
  intros (Hp & Hh & Hv & Hd & Hi).
  destruct w as [[on init models err ld] a v r t n ss m c p cs].
  destruct old as [on' init' models' err' ld'].
  destruct v as [[src h l]|]; cbn in *.
  all: js_unfold; cbn.
  all: unfold video_deps_changed, models_deps_changed.
  all: repeat (case_match; unfold Js.ret in *; simplify_eq/=); learn_pending Hp.
  all: close Hp Hh.
Qed.

Lemma step_coherent labels w e : coherent w → coherent (step labels w e).
Proof.
  intros Hw. unfold step, settle.
  pose proof (handle_settling labels w e Hw) as H0.
  destruct (rerender_settling _ _ H0) as [H1 E1].
  destruct (rerender_settling _ _ H1) as [(Hp & Hh & Hv & Hd & Hi) E2].
  repeat split; try done.
  - by destruct (Hv H).
  - rewrite E2. by destruct (Hv H).
  - intros Hinit. rewrite E2. destruct (Hi Hinit) as [Hon|Hon]; [by rewrite <- E2|done].
Qed.

Lemma mount_coherent : coherent mount.
Proof.
  unfold coherent. cbn. split_and!; try done.
  - repeat constructor; done.
  - by intros [? [=]].
Qed.

Lemma run_coherent labels trace : coherent (run labels trace).
Proof.
  unfold run. generalize mount_coherent. generalize mount.
  induction trace as [|e trace IH]; intros w Hw; [done|].
  simpl. apply IH. by apply step_coherent.
Qed.

(** X6.  In every state a run can reach, the camera is not ready unless
    it is requested ([isVideoInitialized] implies [isVideoOn]), and the
    video element exists only while the camera is requested. *)
Theorem ready_only_while_requested (labels : list string) (trace : list Event) :
  let w := run labels trace in
  (isVideoInitialized (st w) = true → isVideoOn (st w) = true) ∧
  (is_Some (video w) → isVideoOn (st w) = true).
Proof.
  destruct (run_coherent labels trace) as (_ & _ & Hv & _ & Hi).
  split; [done|]. intros H. by destruct (Hv H).
Qed.

(** X7.  [toggleVideo] never starts the polling: the
    [startFaceDetection] it calls after [await initializeVideo()] is the
    one of the render in which the camera was still off, so its first
    test sends it back.  In every run, a step that starts a timer is the
    settling of a gallery build that [loadModels] waits for. *)
Theorem polling_only_from_loadModels (labels : list string)
  (trace : list Event) (e : Event) :
  let w := run labels trace in
  timersCreated w < timersCreated (step labels w e) →
  ∃ k images schedule,
    e = GallerySettles k images schedule ∧
    pending w !! k = Some (Some (AwaitGallery FromLoadModels)).
Proof.
  intros w Hnew.
  destruct (timer_needs_gallery labels w e Hnew)
    as (k & images & schedule & c & -> & Hk).
  exists k, images, schedule. split; [done|].
  destruct (run_coherent labels trace) as (Hp & _).
  pose proof (Forall_lookup_1 _ _ _ _ Hp Hk) as Hc.
  by destruct c.
Qed.

Lemma polling_only_from_loadModels_witness :
  ∃ k images schedule,
    gallery_built 5 = GallerySettles k images schedule ∧
    pending (run GallerySpec.two_labels camera_ready) !! k
    = Some (Some (AwaitGallery FromLoadModels)).
Proof.
  apply (polling_only_from_loadModels GallerySpec.two_labels camera_ready
           (gallery_built 5)).
  vm_compute. lia.
Defined.

Ltac streams_leaf Ha :=
  split;
  [ intros a_ Ha_; cbn in Ha_ |- *; simplify_eq/=;
    rewrite ?length_app, ?length_alter; cbn;
    first [ lia | pose proof (Ha _ eq_refl); lia | pose proof (Ha _ Ha_); lia ]
  | intros i_ [Hne_ (s_ & Hs_ & Hl_)]; cbn in Hne_, Hs_ |- *;
    pose proof (lookup_lt_Some _ _ _ Hs_);
    split;
    [ first [ done | intros [= E_]; lia ]
    | exists s_; split; [|done]; cbn;
      rewrite ?list_lookup_alter_ne by congruence;
      rewrite ?lookup_app_l by (rewrite ?length_alter; lia);
      rewrite ?list_lookup_alter_ne by congruence;
      done ] ].

Lemma handle_streams labels w e :
  attached_exists w → streams_kept w (exec (handle labels (st w) e) w).
Proof.
  intros Ha. unfold attached_exists in Ha.
  destruct w as [[on init models err ld] a v r t n ss m c p cs].
  destruct v as [[src h l]|]; cbn in *.
  all: destruct e; js_unfold; cbn.
  all: repeat case_match; simplify_eq/=.
  all: streams_leaf Ha.
Qed.

Lemma rerender_streams old w :
  attached_exists w → streams_kept w (rerender old w).
Proof.
  intros Ha. unfold attached_exists in Ha.
  destruct w as [[on init models err ld] a v r t n ss m c p cs].
  destruct v as [[src h l]|]; cbn in *.
  all: js_unfold; cbn.
  all: repeat (case_match; unfold Js.ret in *; simplify_eq/=).
  all: streams_leaf Ha.
Qed.

Lemma step_streams labels w e :
  attached_exists w → streams_kept w (step labels w e).
Proof.
  intros Hw. unfold step, settle.
  destruct (handle_streams labels w e Hw) as [A0 K0].
  destruct (rerender_streams (st w) _ A0) as [A1 K1].
  destruct (rerender_streams (st (exec (handle labels (st w) e) w)) _ A1)
    as [A2 K2].
  split; [done|]. intros i Hi. by apply K2, K1, K0.
Qed.

Lemma run_attached_exists labels trace : attached_exists (run labels trace).
Proof.
  unfold run.
  assert (attached_exists mount) as Hm by (by intros a [=]).
  revert Hm. generalize mount.
  induction trace as [|e trace IH]; intros w Hw; [done|].
  simpl. apply IH. by apply step_streams.
Qed.

(** X8.  A stream that is live and not on the video surface stays so
    for good: whatever happens next, nothing stops its tracks and
    nothing attaches it again. *)
Theorem detached_stream_stays_live (labels : list string)
  (trace more : list Event) (i : nat) :
  detached_live (run labels trace) i →
  detached_live (run labels (trace ++ more)) i.
Proof.
  unfold run. rewrite foldl_app. fold (run labels trace).
  pose proof (run_attached_exists labels trace) as Ha.
  revert Ha. generalize (run labels trace).
  induction more as [|e more IH]; intros w Ha Hi; [done|].
  simpl. destruct (step_streams labels w e Ha) as [Ha' K].
  apply IH; [done|]. by apply K.
Qed.

Lemma detached_stream_witness :
  detached_live
    (run GallerySpec.two_labels (on_then_off ++ [ClickToggle; Unmount])) 0.
Proof.
  apply (detached_stream_stays_live GallerySpec.two_labels on_then_off
           [ClickToggle; Unmount] 0).
  split; [vm_compute; discriminate|].
  exists [live]. vm_compute. by split.
Defined.

Lemma empty_labels_gallery images schedule :
  Gallery.settled (Gallery.run [] images Gallery.Current schedule)
  = Some (Normal []).
Proof. by rewrite run_no_labels. Qed.

Lemma handle_no_labels w e :
  timersCreated (exec (handle [] (st w) e) w) = timersCreated w.
Proof.
  destruct w as [[on init models err ld] a v r t n ss m c p cs].
  destruct e; try (effects; done).
  unfold handle. unfold exec, mbind, js_bind, Js.bind, gets. cbn.
  rewrite empty_labels_gallery.
  effects; done.
Qed.

Lemma rerender_timers_subset old w : timers (rerender old w) ⊆ timers w.
Proof.
  destruct w as [[on init models err ld] a v r t n ss m c p cs].
  unfold rerender. cbn [st alive]. destruct (a && _); [|done].
  destruct (video_deps_changed _ _), (models_deps_changed _ _).
  all: effects; set_solver.
Qed.

Lemma handle_timers labels w e :
  timersCreated (exec (handle labels (st w) e) w) = timersCreated w →
  timers (exec (handle labels (st w) e) w) ⊆ timers w.
Proof.
  destruct w as [[on init models err ld] a v r t n ss m c p cs].
  destruct e; effects; intros; try lia; set_solver.
Qed.

(** X9.  With an empty label list the polling never starts: no run
    creates a timer. *)
Theorem no_labels_no_polling (trace : list Event) :
  timersCreated (run [] trace) = 0 ∧ timers (run [] trace) = ∅.
Proof.
  unfold run.
  assert (timersCreated mount = 0 ∧ timers mount = ∅) as Hm by done.
  revert Hm. generalize mount.
  induction trace as [|e trace IH]; intros w Hw; [done|].
  simpl. apply IH. destruct Hw as [Hn Ht].
  unfold step. rewrite settle_timersCreated, handle_no_labels.
  split; [done|].
  pose proof (handle_timers [] w e (handle_no_labels w e)) as H0.
  pose proof (rerender_timers_subset (st w) (exec (handle [] (st w) e) w)) as H1.
  pose proof (rerender_timers_subset (st (exec (handle [] (st w) e) w))
                (rerender (st w) (exec (handle [] (st w) e) w))) as H2.
  unfold settle. set_solver.
Qed.

(** X10.  One event is followed by at most two render passes: the
    effects of the first may set state ([stopVideo] clears
    [isVideoInitialized], [loadModels] sets [isLoading]), the effects
    of the second set nothing that is not already set, and a third
    pass has nothing to do. *)
Theorem rendering_settles (old : Snapshot) (w : World) :
  let w1 := rerender old w in
  let w2 := rerender (st w) w1 in
  st w2 = st w1 ∧ rerender (st w1) w2 = w2.
Proof.
  cbn zeta. pose proof (settle_quiescent old w) as H. unfold settle in H.
  split; [done|]. by apply rerender_unchanged.
Qed.

End MoreAppFacts.

(** ** The part_000 component *)

Section LegacyFacts.
Import Legacy LegacyApp LegacySpec.
#[local] Set Warnings "-clear-no-such-hyp".

Ltac legacy_unfold :=
  unfold step, rerender, handle, commit, effect_video, toggleVideo,
    loadModels_resume, onloadedmetadata_fires, after_getUserMedia,
    initializeVideo, startFaceDetection, startVideo, resumed, suspend,
    lift, cleanup, Legacy.startFaceDetection, onInterval,
    initializeVideo_resume, stopVideo, clearInterval, setAreModelsLoaded,
    setIsVideoInitialized, set_video, log, setIsVideoOn, skip in *;
  unfold exec, mbind, mret, js_bind, js_ret, Js.bind, Js.ret, gets, modify,
    when, try_catch, throw in *.

Ltac legacy_effects :=
  legacy_unfold; cbn;
  repeat (case_match; unfold Js.ret in *; simplify_eq/=).

Ltac learn_captured Hp :=
  repeat match goal with
  | H : ?p !! ?k = Some ?t |- _ =>
      lazymatch goal with
      | _ : captured t |- _ => fail
      | _ => pose proof (Forall_lookup_1 _ _ _ _ Hp H)
      end
  end.

Ltac forall_leaf Hp Hc :=
  repeat first
    [ apply Forall_app; split
    | apply Forall_insert
    | apply Forall_cons; split
    | apply Forall_nil ];
  first [ exact Hp | exact Hc | done
        | cbn in *; done
        | cbn in *; by apply negb_true_iff
        | cbn in *; by apply negb_false_iff ].

Lemma handle_well_formed w e : well_formed w → well_formed (exec (handle e) w).
Proof.
  intros [Hp Hc].
  destruct w as [[[on init models] v rf t n ss cs] a due p cl er]. cbn in *.
  destruct e; legacy_effects; learn_captured Hp.
  all: split; forall_leaf Hp Hc.
Qed.

Lemma rerender_well_formed old w : well_formed w → well_formed (rerender old w).
Proof.
  intros [Hp Hc].
  destruct w as [[[on init models] v rf t n ss cs] a due p cl er]. cbn in *.
  legacy_effects.
  all: split; forall_leaf Hp Hc.
Qed.

Lemma step_well_formed w e : well_formed w → well_formed (step w e).
Proof. intros H. by apply rerender_well_formed, handle_well_formed. Qed.

Lemma mount_well_formed : well_formed mount.
Proof. split; repeat constructor. Qed.

Lemma run_well_formed trace : well_formed (run trace).
Proof.
  unfold run. generalize mount_well_formed. generalize mount.
  induction trace as [|e trace IH]; intros w Hw; [done|].
  simpl. apply IH. by apply step_well_formed.
Qed.

Lemma run_app trace more : run (trace ++ more) = foldl step (run trace) more.
Proof. unfold run. by rewrite foldl_app. Qed.

Ltac armed_leaf Hp Hj :=
  lazymatch goal with
  | |- context [<[?k:=None]> ?p] =>
      lazymatch type of Hj with
      | _ !! ?j = _ =>
          destruct (decide (j = k)) as [->|Hne];
          [ simplify_eq/=;
            repeat match goal with
            | H : negb _ = false |- _ => apply negb_false_iff in H
            end;
            first [ congruence | set_solver ]
          | assert (Some (Timeout _) ∈ <[k:=None]> p)
              by (apply list_elem_of_lookup_2 with j;
                  by rewrite list_lookup_insert_ne);
            set_solver ]
      end
  | _ => apply list_elem_of_lookup_2 in Hj; set_solver
  end.

Lemma handle_armed w e r :
  well_formed w → armed w r → armed (exec (handle e) w) r.
Proof.
  intros [Hp _] Hr. unfold armed in *.
  apply list_elem_of_lookup in Hr as [j Hj].
  destruct w as [[[on init models] v rf t n ss cs] a due p cl er]. cbn in *.
  destruct e; legacy_effects; learn_captured Hp.
  all: armed_leaf Hp Hj.
Qed.

Lemma rerender_armed old w r : armed w r → armed (rerender old w) r.
Proof.
  unfold armed.
  destruct w as [[[on init models] v rf t n ss cs] a due p cl er]. cbn.
  intros Hr. legacy_effects; set_solver.
Qed.

Lemma step_armed w e r : well_formed w → armed w r → armed (step w e) r.
Proof. intros Hw Hr. by apply rerender_armed, handle_armed. Qed.

Lemma legacy_rerender_same w : rerender (st (base w)) w = w.
Proof.
  unfold rerender. rewrite bool_decide_eq_true_2 by done.
  by rewrite andb_false_r.
Qed.

(** X14.  [startVideo] of a render in which [isVideoInitialized] is
    false never gets anywhere: its timeout belongs to such a render,
    firing it only arms the next one and changes nothing else, and so a
    timeout stays armed whatever happens afterwards, the unmount
    included (nothing calls clearTimeout). *)
Theorem stale_timeout_never_ends (trace : list Event) (r : Snapshot) :
  armed (run trace) r →
  isVideoInitialized r = false ∧
  (∀ more, armed (run (trace ++ more)) r) ∧
  (∀ k, pending (run trace) !! k = Some (Some (Timeout r)) →
        step (run trace) (TimeoutFires k) =
        with_pending (<[k:=None]> (pending (run trace)) ++ [Some (Timeout r)])
          (run trace)).
Proof.
  intros Hr. pose proof (run_well_formed trace) as Hw.
  assert (Hstale : isVideoInitialized r = false).
  { destruct Hw as [Hp _]. apply list_elem_of_lookup in Hr as [j Hj].
    apply (Forall_lookup_1 _ _ _ _ Hp Hj). }
  split; [done|]. split.
  - intros more. rewrite run_app. revert Hw Hr. generalize (run trace).
    induction more as [|e more IH]; intros w Hw Hr; [done|].
    simpl. apply IH; [by apply step_well_formed | by apply step_armed].
  - intros k Hk. revert Hk. generalize (run trace). intros w Hk.
    unfold step.
    assert (exec (handle (TimeoutFires k)) w
            = with_pending (<[k:=None]> (pending w) ++ [Some (Timeout r)]) w) as ->.
    { destruct w as [b a due p cl er]. cbn in Hk.
      unfold handle, exec, mbind, js_bind, Js.bind, gets. cbn. rewrite Hk.
      unfold startVideo. by rewrite Hstale. }
    apply (legacy_rerender_same (with_pending _ w)).
Qed.

Lemma stale_timeout_witness :
  armed (run (first_stream ++ [LoadedMetadata] ++ [Unmount; TimeoutFires 2]))
    {| isVideoOn := true; isVideoInitialized := false; areModelsLoaded := true |}.
Proof.
  rewrite app_assoc.
  apply (stale_timeout_never_ends (first_stream ++ [LoadedMetadata])).
  vm_compute. apply list_elem_of_lookup_2 with 2. reflexivity.
Defined.

(** X15.  Every interval timer of part_000 runs the callback of a
    render in which [isVideoInitialized] is true, so the test at the
    head of the callback never makes it return early: a frame that
    fails is always logged. *)
Theorem interval_guard_never_fires (trace : list Event) :
  let w := run trace in
  Forall (λ r, isVideoInitialized r = true) (closures w) ∧
  ∀ timer r m,
    closures w !! timer = Some r →
    console (exec (onInterval r (App.FrameFailed m)) (base w)) =
    console (base w) ++ [console_error "Error detecting faces:" m].
Proof.
  destruct (run_well_formed trace) as [_ Hc]. split; [done|].
  intros timer r m Hr. pose proof (Forall_lookup_1 _ _ _ _ Hc Hr) as Hi.
  unfold onInterval, exec, try_catch. cbn. by rewrite Hi.
Qed.

Lemma handle_initialized w e :
  isVideoInitialized (st (base w)) = true →
  isVideoInitialized (st (base (exec (handle e) w))) = true.
Proof.
  destruct w as [[[on init models] v rf t n ss cs] a due p cl er]. cbn.
  intros ->. destruct e; legacy_effects; done.
Qed.

Lemma rerender_initialized old w :
  isVideoInitialized (st (base (rerender old w)))
  = isVideoInitialized (st (base w)).
Proof.
  destruct w as [[[on init models] v rf t n ss cs] a due p cl er]. cbn.
  legacy_effects; done.
Qed.

(** X16.  part_000 never clears [isVideoInitialized]: once the flag is
    true it is true for good, also while the camera is switched off. *)
Theorem initialized_for_good (trace more : list Event) :
  isVideoInitialized (st (base (run trace))) = true →
  isVideoInitialized (st (base (run (trace ++ more)))) = true.
Proof.
  rewrite run_app. generalize (run trace).
  induction more as [|e more IH]; intros w Hw; [done|].
  simpl. apply IH. unfold step. rewrite rerender_initialized.
  by apply handle_initialized.
Qed.

Lemma initialized_for_good_witness :
  isVideoInitialized (st (base (run (polling ++ [ClickToggle])))) = true ∧
  isVideoOn (st (base (run (polling ++ [ClickToggle])))) = false.
Proof.
  split; [|reflexivity].
  apply (initialized_for_good polling [ClickToggle]). reflexivity.
Defined.

(** X17.  The first loadedmetadata after the camera was switched on
    sets [isVideoInitialized], and because the effect depends on that
    flag it runs again: its cleanup takes the stream off the video
    element without stopping it, and its body asks for the camera a
    second time. *)
Theorem metadata_triggers_second_request (w : World) (el : VideoElement)
  (s : nat) (r : Snapshot) :
  alive w = true →
  video (base w) = Some el →
  srcObject el = Some s →
  onloadedmetadata el = Some r →
  metadataDue w = true →
  isVideoOn (st (base w)) = true →
  areModelsLoaded (st (base w)) = true →
  isVideoInitialized (st (base w)) = false →
  let w' := step w LoadedMetadata in
  isVideoInitialized (st (base w')) = true ∧
  attached w' = None ∧
  streams (base w') = streams (base w) ∧
  pending w' =
    pending w ++
    (if areModelsLoaded r
     then [Some (if isVideoInitialized r then AwaitPlay r else Timeout r)]
     else []) ++
    [Some (AwaitGetUserMedia (st (base w')))].
Proof.
  intros Ha Hv Hs Hh Hdue Hon Hm Hi.
  destruct w as [[[on init models] v rf t n ss cs] a due p cl er].
  destruct el as [src pa h]. destruct r as [ron rinit rmodels].
  cbn in *. subst.
  destruct rmodels, rinit, rf; legacy_unfold; cbn.
  all: unfold video_deps_changed; cbn.
  all: repeat (case_bool_decide; simplify_eq/=).
  all: rewrite <- ?app_assoc; done.
Qed.

Lemma metadata_witness :
  let w := run first_stream in
  let w' := step w LoadedMetadata in
  isVideoInitialized (st (base w')) = true ∧
  attached w' = None ∧
  streams (base w') = streams (base w) ∧
  pending w' =
    pending w ++
    [Some (Timeout {| isVideoOn := true; isVideoInitialized := false;
                      areModelsLoaded := true |})] ++
    [Some (AwaitGetUserMedia (st (base w')))].
Proof.
  apply (metadata_triggers_second_request (run first_stream)
           {| srcObject := Some 0; paused := true;
              onloadedmetadata :=
                Some {| isVideoOn := true; isVideoInitialized := false;
                        areModelsLoaded := true |} |}
           0
           {| isVideoOn := true; isVideoInitialized := false;
              areModelsLoaded := true |});
    reflexivity.
Defined.

(** X18.  A granted getUserMedia call that finds no video element (the
    camera was switched on before the models were loaded, or switched
    off again in the meantime): setting [srcObject] throws, the catch
    logs the TypeError (it names undefined as long as no <video> was
    ever mounted, null once one was taken away) and switches the camera
    off, and the stream that was handed out stays live, attached to
    nothing. *)
Theorem granted_without_video_element (w : World) (k : nat) (r : Snapshot) :
  pending w !! k = Some (Some (AwaitGetUserMedia r)) →
  video (base w) = None →
  let w' := step w (GetUserMediaSettles k App.Granted) in
  isVideoOn (st (base w')) = false ∧
  streams (base w') = streams (base w) ++ [[App.live]] ∧
  attached w' = None ∧
  console (base w') =
    console (base w) ++
    [console_error "Error initializing video:"
       (TypeError_srcObject (emptyRef w))].
Proof.
  intros Hk Hv.
  destruct w as [[[on init models] v rf t n ss cs] a due p cl er].
  cbn in Hk, Hv. subst v. cbn zeta.
  unfold step, handle, exec, mbind, js_bind, Js.bind, gets. cbn. rewrite Hk.
  legacy_effects; try done.
  all: unfold shows_video in *; cbn in *; rewrite ?andb_false_r in *; done.
Qed.

Lemma granted_without_video_witness :
  (* switched on before the models are loaded: no <video> so far *)
  (let w := run [ClickToggle] in
   let w' := step w (GetUserMediaSettles 1 App.Granted) in
   isVideoOn (st (base w')) = false ∧
   streams (base w') = streams (base w) ++ [[App.live]] ∧
   attached w' = None ∧
   console (base w') =
     console (base w) ++
     [console_error "Error initializing video:"
        "Cannot set properties of undefined (setting 'srcObject')"]) ∧
  (* switched on and off again with the models loaded: the <video> was
     mounted and taken away *)
  (let w := run [ModelsSettle 0 None None None None; ClickToggle; ClickToggle] in
   let w' := step w (GetUserMediaSettles 1 App.Granted) in
   isVideoOn (st (base w')) = false ∧
   streams (base w') = streams (base w) ++ [[App.live]] ∧
   attached w' = None ∧
   console (base w') =
     console (base w) ++
     [console_error "Error initializing video:"
        "Cannot set properties of null (setting 'srcObject')"]).
Proof.
  split.
  - apply (granted_without_video_element (run [ClickToggle]) 1
             {| isVideoOn := true; isVideoInitialized := false;
                areModelsLoaded := false |});
      reflexivity.
  - apply (granted_without_video_element
             (run [ModelsSettle 0 None None None None; ClickToggle; ClickToggle]) 1
             {| isVideoOn := true; isVideoInitialized := false;
                areModelsLoaded := true |});
      reflexivity.
Defined.


Lemma handle_all_live w e : all_live w → all_live (exec (handle e) w).
Proof.
  unfold all_live.
  destruct w as [[[on init models] v rf t n ss cs] a due p cl er]. cbn.
  intros Hs. destruct e; legacy_effects; try done.
  all: apply Forall_app; split; [done|]; by repeat constructor.
Qed.

Lemma rerender_all_live old w : all_live w → all_live (rerender old w).
Proof.
  unfold all_live.
  destruct w as [[[on init models] v rf t n ss cs] a due p cl er]. cbn.
  intros Hs. legacy_effects; done.
Qed.

(** X19.  part_000 never stops a track: every stream a run was ever
    handed is still live, whether it is on the video element or not,
    after a toggle-off and after the unmount. *)
Theorem legacy_never_stops_a_track (trace : list Event) :
  Forall (λ s, s = [App.live]) (streams (base (run trace))).
Proof.
  unfold run. assert (all_live mount) as Hm by constructor.
  revert Hm. generalize mount.
  induction trace as [|e trace IH]; intros w Hw; [done|].
  simpl. apply IH. by apply rerender_all_live, handle_all_live.
Qed.

End LegacyFacts.

(** ** A rejected getUserMedia call, in both components *)

Section AcquisitionFailure.
Import App AppSpec.




End AcquisitionFailure.

